(** * latextools.tokenizer: a shallow embedding of the TeX-like tokenizer

    The development follows [src/latextools/tokenizer.py]: the category
    codes, the [Tokenizer] object with its mutable attributes, the line
    normaliser behind [reset], the pull protocol ([peek], [has_token],
    [get_token]) and the scanning loop [make_token].

    Texts are strings over 8-bit characters (code points 0..255).  Python
    integers used as cursors are natural numbers. *)

From Stdlib Require Import Ascii String NArith ZArith Lia.
From stdpp Require Import base option gmap strings.

Local Open Scope string_scope.
Local Open Scope nat_scope.

(** ** Data model *)

(** [Token = namedtuple('Token', 'value code')] is declared after
    [CategoryCode] below. *)

(** [class State(IntEnum)] *)
Inductive State : Set :=
| NewLine
| SkippingSpaces
| MiddleOfLine.

(** [class CategoryCode(IntEnum)]: the sixteen input categories and the two
    codes that only synthesised tokens carry, in one enumeration as in the
    source. *)
Inductive CategoryCode : Set :=
| EscapeCharacter
| BeginningOfGroup
| EndOfGroup
| MathShift
| AlignmentTab
| EndOfLine
| ParameterCharacter
| Superscript
| Subscript
| Ignored
| Space
| Letter
| Other
| Active
| Comment
| Invalid
| ControlSequence
| ParameterToken.

#[global] Instance State_eq_dec : EqDecision State.
Proof. solve_decision. Defined.

#[global] Instance CategoryCode_eq_dec : EqDecision CategoryCode.
Proof. solve_decision. Defined.

Record Token : Set := mkToken { value : string; code : CategoryCode }.

#[global] Instance Token_eq_dec : EqDecision Token.
Proof. solve_decision. Defined.

(** ** Characters *)

Definition ord (c : ascii) : nat := nat_of_ascii c.
Definition chr (n : nat) : ascii := ascii_of_nat n.

(** One-character string, [str] built from a single [char]. *)
Definition str1 (c : ascii) : string := String c EmptyString.

Definition NUL : ascii := chr 0.
Definition TAB : ascii := chr 9.
Definition LF : ascii := chr 10.
Definition CR : ascii := chr 13.
Definition DEL : ascii := chr 127.

(** [string.ascii_letters] *)
Definition ascii_letters : string :=
  "abcdefghijklmnopqrstuvwxyzABCDEFGHIJKLMNOPQRSTUVWXYZ".

(** [str.isdigit] on one character of the 8-bit range: the ten decimal
    digits and the three superscript digits U+00B2, U+00B3, U+00B9. *)
Definition isdigit (c : ascii) : bool :=
  let n := ord c in
  ((48 <=? n) && (n <=? 57)) || (n =? 178) || (n =? 179) || (n =? 185).

(** The class [[0-9a-f]] of the regular expression in [make_token]. *)
Definition is_lower_hex (c : ascii) : bool :=
  let n := ord c in
  ((48 <=? n) && (n <=? 57)) || ((97 <=? n) && (n <=? 102)).

(** Value of one lower-case hexadecimal digit. *)
Definition hex_digit_value (c : ascii) : nat :=
  let n := ord c in
  if (48 <=? n) && (n <=? 57) then n - 48 else n - 87.

(** ** The classification table *)

(** [self.catcodes = defaultdict(lambda: CategoryCode.Other)]: a finite map
    of registered characters; reading an unregistered character yields
    [Other].  (Reading also stores that default in the Python dictionary,
    which no later read can tell apart, so reads are modelled as pure.) *)
Definition catcode_of (m : gmap ascii CategoryCode) (c : ascii) : CategoryCode :=
  default Other (m !! c).

(** [for c in ascii_letters: self.catcodes[c] = CategoryCode.Letter] *)
Fixpoint register_letters (s : string) (m : gmap ascii CategoryCode)
  : gmap ascii CategoryCode :=
  match s with
  | EmptyString => m
  | String c s' => register_letters s' (<[c := Letter]> m)
  end.

(** The defaults registered by [__init__]. *)
Definition default_catcodes : gmap ascii CategoryCode :=
  register_letters ascii_letters
    (<["\"%char := EscapeCharacter]>
    (<["{"%char := BeginningOfGroup]>
    (<["}"%char := EndOfGroup]>
    (<["$"%char := MathShift]>
    (<["&"%char := AlignmentTab]>
    (<[CR := EndOfLine]>
    (<["#"%char := ParameterCharacter]>
    (<["^"%char := Superscript]>
    (<["_"%char := Subscript]>
    (<[NUL := Ignored]>
    (<[" "%char := Space]>
    (<[TAB := Space]>
    (<["~"%char := Active]>
    (<["%"%char := Comment]>
    (<[DEL := Invalid]> ∅))))))))))))))).

(** ** Python string operations used by the source *)

(** [s[n:]] *)
Fixpoint string_drop (n : nat) (s : string) : string :=
  match n, s with
  | O, _ => s
  | S n', EmptyString => EmptyString
  | S n', String _ s' => string_drop n' s'
  end.

(** [s[n:n+m]]: Python slices clamp at the end of the string, as
    [substring] of the Standard Library does. *)
Definition slice (n m : nat) (s : string) : string := substring n m s.

(** [str.isspace] on one character of the 8-bit range. *)
Definition isspace (c : ascii) : bool :=
  let n := ord c in
  ((9 <=? n) && (n <=? 13)) || ((28 <=? n) && (n <=? 32))
  || (n =? 133) || (n =? 160).

(** The line boundaries of [str.splitlines] in the 8-bit range. *)
Definition is_linebreak (c : ascii) : bool :=
  let n := ord c in
  ((10 <=? n) && (n <=? 13)) || ((28 <=? n) && (n <=? 30)) || (n =? 133).

Fixpoint lstrip (s : string) : string :=
  match s with
  | EmptyString => EmptyString
  | String c s' => if isspace c then lstrip s' else s
  end.

Fixpoint rstrip (s : string) : string :=
  match s with
  | EmptyString => EmptyString
  | String c s' =>
      match rstrip s' with
      | EmptyString => if isspace c then EmptyString else str1 c
      | r => String c r
      end
  end.

Definition strip (s : string) : string := rstrip (lstrip s).

(** [str.splitlines()]: a carriage return directly followed by a line feed
    is one boundary; a final boundary opens no further line. *)
Fixpoint splitlines (s : string) : list string :=
  match s with
  | EmptyString => []
  | String c s' =>
      if is_linebreak c then
        EmptyString ::
          match s' with
          | String c' s'' =>
              if Ascii.eqb c CR && Ascii.eqb c' LF then splitlines s''
              else splitlines s'
          | EmptyString => []
          end
      else
        match splitlines s' with
        | [] => [str1 c]
        | l :: ls => String c l :: ls
        end
  end.

(** [re.match(r'[0-9a-f][0-9a-f]', enc)]: the pattern is anchored at the
    start only. *)
Definition re_match_hex2 (enc : string) : bool :=
  match enc with
  | String a (String b _) => is_lower_hex a && is_lower_hex b
  | _ => false
  end.

(** [int(enc, 16)] on a string of lower-case hexadecimal digits. *)
Fixpoint int16_from (acc : nat) (s : string) : nat :=
  match s with
  | EmptyString => acc
  | String c s' => int16_from (16 * acc + hex_digit_value c) s'
  end.

Definition int16 (s : string) : nat := int16_from 0 s.

(** ** The tokenizer object *)

(** What the attribute name [lines] of an instance resolves to: the method
    [Tokenizer.lines] of the class until [reset] stores a list under the
    same name, and that list from then on. *)
Inductive lines_attr : Type :=
| BoundMethod
| LineList (ls : list string).

Record Tokenizer : Type := mkTokenizer {
  catcodes : gmap ascii CategoryCode;
  endlinechar : option ascii;
  state : State;
  currline : nat;
  currchar : nat;
  next_token : option Token;
  text : option string;
  lines : lines_attr
}.

Definition set_state (s : State) (t : Tokenizer) : Tokenizer :=
  mkTokenizer (catcodes t) (endlinechar t) s (currline t) (currchar t)
    (next_token t) (text t) (lines t).

Definition set_currline (n : nat) (t : Tokenizer) : Tokenizer :=
  mkTokenizer (catcodes t) (endlinechar t) (state t) n (currchar t)
    (next_token t) (text t) (lines t).

Definition set_currchar (n : nat) (t : Tokenizer) : Tokenizer :=
  mkTokenizer (catcodes t) (endlinechar t) (state t) (currline t) n
    (next_token t) (text t) (lines t).

Definition set_next_token (o : option Token) (t : Tokenizer) : Tokenizer :=
  mkTokenizer (catcodes t) (endlinechar t) (state t) (currline t) (currchar t)
    o (text t) (lines t).

Definition set_text (o : option string) (t : Tokenizer) : Tokenizer :=
  mkTokenizer (catcodes t) (endlinechar t) (state t) (currline t) (currchar t)
    (next_token t) o (lines t).

Definition set_lines (l : lines_attr) (t : Tokenizer) : Tokenizer :=
  mkTokenizer (catcodes t) (endlinechar t) (state t) (currline t) (currchar t)
    (next_token t) (text t) l.

(** [self.catcodes[c] = k] *)
Definition set_catcode (c : ascii) (k : CategoryCode) (t : Tokenizer) : Tokenizer :=
  mkTokenizer (<[c := k]> (catcodes t)) (endlinechar t) (state t) (currline t)
    (currchar t) (next_token t) (text t) (lines t).

(** [self.catcodes[c]] *)
Definition catcode (t : Tokenizer) (c : ascii) : CategoryCode :=
  catcode_of (catcodes t) c.

(** The exceptions the source can raise. *)
Inductive PyError : Set :=
| IndexError          (* string index out of range *)
| TypeError           (* 'list' object is not callable, len() of a method *)
| InvalidCharacter.   (* Exception('invalid character') *)

(** Result of a call on the object: a returned value and the object after
    the call, an exception and the object as the call left it, or no
    result within the given number of loop iterations. *)
Inductive outcome (A : Type) : Type :=
| Done (a : A) (t : Tokenizer)
| Raised (e : PyError) (t : Tokenizer)
| OutOfFuel.

Arguments Done {A} a t.
Arguments Raised {A} e t.
Arguments OutOfFuel {A}.

(** Sequencing of two calls on the same object. *)
Definition and_then {A B : Type} (m : outcome A)
    (k : A -> Tokenizer -> outcome B) : outcome B :=
  match m with
  | Done a t => k a t
  | Raised e t => Raised e t
  | OutOfFuel => OutOfFuel
  end.

(** ** The line normaliser *)

(** The argument of [set_endlinechar]: a string, an integer or [None]. *)
Inductive pyarg : Type :=
| PyStr (s : string)
| PyInt (z : Z)
| PyNone.

Definition endlinechar_of (char : pyarg) : option ascii :=
  match char with
  | PyStr (String c EmptyString) =>
      if ord c <? 255 then Some c else None
  | PyInt z =>
      if ((0 <=? z) && (z <? 255))%Z then Some (chr (Z.to_nat z)) else None
  | _ => None
  end.

Definition set_endlinechar (char : pyarg) (t : Tokenizer) : Tokenizer :=
  mkTokenizer (catcodes t) (endlinechar_of char) (state t) (currline t)
    (currchar t) (next_token t) (text t) (lines t).

(** The generator method [lines], run to its end. *)
Definition lines_method (t : Tokenizer) : list string :=
  match text t with
  | None => []
  | Some txt =>
      map (fun line =>
             let line := rstrip line in
             match endlinechar t with
             | Some c => line ++ str1 c
             | None => line
             end)
          (splitlines txt)
  end.

(** [reset(text)].  The four assignments come first; with a text, the
    call [self.lines()] follows, which only succeeds while the name still
    resolves to the method. *)
Definition reset (txt : option string) (t : Tokenizer) : outcome unit :=
  let t := set_state NewLine t in
  let t := set_currline 0 t in
  let t := set_currchar 0 t in
  let t := set_next_token None t in
  match txt with
  | None => Done tt t
  | Some s =>
      let t := set_text (Some (strip s)) t in
      match lines t with
      | BoundMethod => Done tt (set_lines (LineList (lines_method t)) t)
      | LineList _ => Raised TypeError t
      end
  end.

(** [Tokenizer(text, endlinechar)] *)
Definition init (txt : option string) (elc : pyarg) : outcome unit :=
  let t := mkTokenizer default_catcodes None NewLine 0 0 None None BoundMethod in
  let t := set_endlinechar elc t in
  reset txt t.

(** The default value of the parameter [endlinechar]. *)
Definition default_endlinechar : pyarg := PyInt 13.

(** ** The scanning engine *)

(** How one pass through the body of the inner [while] loop ends. *)
Inductive step_result : Type :=
| Return (tok : Token) (t : Tokenizer)     (* [return Token(..)] *)
| Break (t : Tokenizer)                    (* [break] *)
| Continue (t : Tokenizer)                 (* the body ends, the loop goes on *)
| Raise (e : PyError) (t : Tokenizer).     (* an exception leaves the method *)

(** The loop that extends a control word: [rest] is [line[pos:]]. *)
Fixpoint control_word (m : gmap ascii CategoryCode) (rest : string)
    (token : string) (pos : nat) : string * nat :=
  match rest with
  | EmptyString => (token, pos)
  | String char rest' =>
      match catcode_of m char with
      | Letter => control_word m rest' (token ++ str1 char) (S pos)
      | _ => (token, pos)
      end
  end.

(** The body of the inner loop for [char = line[self.currchar]]. *)
Definition scan_char (line : string) (char : ascii) (t : Tokenizer) : step_result :=
  let code := catcode t char in
  let t := set_currchar (currchar t + 1) t in
  let token := str1 char in
  match code with
  | EscapeCharacter =>
      match get (currchar t) line with
      | None => Raise IndexError t
      | Some char =>
          let code := catcode t char in
          let t := set_currchar (currchar t + 1) t in
          match code with
          | Letter =>
              (* control word *)
              let t := set_state SkippingSpaces t in
              let token := token ++ str1 char in
              let '(token, pos) :=
                control_word (catcodes t) (string_drop (currchar t) line)
                  token (currchar t) in
              Return (mkToken token ControlSequence) (set_currchar pos t)
          | Space =>
              (* control space *)
              let t := set_state SkippingSpaces t in
              Return (mkToken (token ++ str1 char) ControlSequence) t
          | _ =>
              (* control symbol *)
              let t := set_state MiddleOfLine t in
              Return (mkToken (token ++ str1 char) ControlSequence) t
          end
      end
  | EndOfLine =>
      (* skip rest of current line *)
      let t := set_currline (currline t + 1) t in
      let t := set_currchar 0 t in
      (* remember state *)
      let prev_state := state t in
      (* transition to new state *)
      let t := set_state NewLine t in
      match prev_state with
      | NewLine => Return (mkToken "\par" ControlSequence) t
      | SkippingSpaces => Break t
      | MiddleOfLine => Return (mkToken " " Space) t
      end
  | ParameterCharacter =>
      match get (currchar t) line with
      | Some char =>
          if isdigit char then
            (* build a parameter token *)
            Return (mkToken (token ++ str1 char) ParameterToken)
              (set_state MiddleOfLine (set_currchar (currchar t + 1) t))
          else if decide (catcode t char = ParameterCharacter) then
            (* ignore second parameter char *)
            Return (mkToken token code)
              (set_state MiddleOfLine (set_currchar (currchar t + 1) t))
          else
            Return (mkToken token code) (set_state MiddleOfLine t)
      | None => Return (mkToken token code) (set_state MiddleOfLine t)
      end
  | Superscript =>
      let t := set_state MiddleOfLine t in
      let chars := slice (currchar t) 3 line in
      match chars with
      | String c0 enc =>
          if (1 <? String.length chars)
             && bool_decide (catcode t c0 = Superscript) then
            if re_match_hex2 enc then
              let n := int16 enc in
              if n <? 256 then
                let token := str1 (chr n) in
                let code := catcode t (chr n) in
                Return (mkToken token code) (set_currchar (currchar t + 3) t)
              else
                match enc with
                | String e0 _ =>
                    let n := ord e0 in
                    if n <? 128 then
                      let token := str1 (chr ((n + 64) mod 128)) in
                      let code := catcode t (chr ((n + 64) mod 128)) in
                      Return (mkToken token code)
                        (set_currchar (currchar t + 2) t)
                    else Return (mkToken token code) t
                | EmptyString => Return (mkToken token code) t
                end
            else Return (mkToken token code) t
          else Return (mkToken token code) t
      | EmptyString => Return (mkToken token code) t
      end
  | Ignored => Continue t
  | Space =>
      match state t with
      | MiddleOfLine =>
          Return (mkToken " " Space) (set_state SkippingSpaces t)
      | _ => Continue t
      end
  | Comment =>
      (* skip rest of current line *)
      let t := set_currline (currline t + 1) t in
      let t := set_currchar 0 t in
      Break t
  | Invalid => Raise InvalidCharacter t
  | _ =>
      let t := set_state MiddleOfLine t in
      Return (mkToken token code) t
  end.

(** How the inner loop ends. *)
Inductive loop_result : Type :=
| LReturn (tok : Token) (t : Tokenizer)
| LExit (t : Tokenizer)          (* by [break] or by its condition *)
| LRaise (e : PyError) (t : Tokenizer)
| LOutOfFuel.

(** [while self.currchar < len(line): char = line[self.currchar]; ...]:
    [get] answers [None] exactly when the condition fails. *)
Fixpoint inner_loop (fuel : nat) (line : string) (t : Tokenizer) : loop_result :=
  match get (currchar t) line with
  | None => LExit t
  | Some char =>
      match fuel with
      | O => LOutOfFuel
      | S fuel' =>
          match scan_char line char t with
          | Return tok t' => LReturn tok t'
          | Break t' => LExit t'
          | Continue t' => inner_loop fuel' line t'
          | Raise e t' => LRaise e t'
          end
      end
  end.

(** [make_token].  The outer loop reads [self.lines[self.currline]] anew
    after the inner loop has ended; nothing but the [EndOfLine] and
    [Comment] branches moves [currline].  Falling out of the outer loop
    returns [None].  No fuel is needed to see that no line is left. *)
Fixpoint make_token (fuel : nat) (t : Tokenizer) : outcome (option Token) :=
  match lines t with
  | BoundMethod => Raised TypeError t
  | LineList ls =>
      match ls !! currline t with
      | None => Done None t
      | Some line =>
          match fuel with
          | O => OutOfFuel
          | S fuel' =>
              match inner_loop fuel' line t with
              | LReturn tok t' => Done (Some tok) t'
              | LExit t' => make_token fuel' t'
              | LRaise e t' => Raised e t'
              | LOutOfFuel => OutOfFuel
              end
          end
      end
  end.

(** ** The pull protocol *)

Definition peek (fuel : nat) (t : Tokenizer) : outcome (option Token) :=
  match next_token t with
  | None =>
      and_then (make_token fuel t)
        (fun tok t' => Done tok (set_next_token tok t'))
  | Some tok => Done (Some tok) t
  end.

Definition has_token (fuel : nat) (t : Tokenizer) : outcome bool :=
  and_then (peek fuel t) (fun tok t' => Done (bool_decide (tok <> None)) t').

Definition get_token (fuel : nat) (t : Tokenizer) : outcome (option Token) :=
  match next_token t with
  | None => make_token fuel t
  | Some tok => Done (Some tok) (set_next_token None t)
  end.

(** How a run of the generator [__iter__] ends. *)
Inductive ending : Type :=
| Finished (t : Tokenizer)
| Failed (e : PyError) (t : Tokenizer)
| Unfinished.

(** [__iter__]: the values yielded within [n] rounds of the loop, and how
    the run ended. *)
Fixpoint iter (n fuel : nat) (t : Tokenizer) : list (option Token) * ending :=
  match n with
  | O => ([], Unfinished)
  | S n' =>
      match has_token fuel t with
      | Done true t1 =>
          match get_token fuel t1 with
          | Done tok t2 =>
              let '(toks, e) := iter n' fuel t2 in (tok :: toks, e)
          | Raised e t2 => ([], Failed e t2)
          | OutOfFuel => ([], Unfinished)
          end
      | Done false t1 => ([], Finished t1)
      | Raised e t1 => ([], Failed e t1)
      | OutOfFuel => ([], Unfinished)
      end
  end.

(** A tokenizer built by [Tokenizer(text, endlinechar)] and iterated. *)
Definition tokenize (n fuel : nat) (txt : string) (elc : pyarg)
  : list (option Token) * ending :=
  match init (Some txt) elc with
  | Done _ t => iter n fuel t
  | Raised e t => ([], Failed e t)
  | OutOfFuel => ([], Unfinished)
  end.

(** The object that [Tokenizer(txt, elc)] builds: the first [reset] finds
    the method under the name [lines] and always succeeds. *)
Definition fresh (txt : string) (elc : pyarg) : Tokenizer :=
  let t := mkTokenizer default_catcodes (endlinechar_of elc) NewLine 0 0 None
             (Some (strip txt)) BoundMethod in
  set_lines (LineList (lines_method t)) t.

(** The object with the cursor moved past the current line. *)
Definition next_line (t : Tokenizer) : Tokenizer :=
  set_currchar 0 (set_currline (currline t + 1) t).

(** The categories of the last branch of the loop body: the character is
    returned as it stands, with its own category. *)
Definition verbatim (k : CategoryCode) : bool :=
  match k with
  | EscapeCharacter | EndOfLine | ParameterCharacter | Superscript
  | Ignored | Space | Comment | Invalid => false
  | _ => true
  end.

(** The object with its current line replaced by [line]. *)
Definition with_line (line : string) (t : Tokenizer) : Tokenizer :=
  match lines t with
  | BoundMethod => t
  | LineList ls => set_lines (LineList (<[currline t := line]> ls)) t
  end.

(** What a call returned, if it returned. *)
Definition returned {A : Type} (r : outcome A) : option A :=
  match r with
  | Done a _ => Some a
  | _ => None
  end.

(** The line that holds the hexadecimal form after [pre], and the line
    that holds the decoded character in its place. *)
Definition hex_line (pre : string) (c1 c2 h1 h2 : ascii) (post : string) : string :=
  pre ++ String c1 (String c2 (String h1 (String h2 post))).

Definition literal_line (pre : string) (h1 h2 : ascii) (post : string) : string :=
  pre ++ String (chr (int16 (String h1 (str1 h2)))) post.

(** A token with at least one character, and a lookahead slot that is
    empty or holds such a token. *)
Definition nonempty (tok : Token) : Prop := 1 <= String.length (value tok).

Definition slot_ok (t : Tokenizer) : Prop :=
  match next_token t with
  | Some tok => nonempty tok
  | None => True
  end.

(** A value yielded by the iterator is a token with at least one
    character. *)
Definition yielded_ok (o : option Token) : Prop :=
  exists tok, o = Some tok /\ nonempty tok.

(** Where an [InvalidCharacter] error leaves the cursor. *)
Definition behind_invalid (line : string) (t' : Tokenizer) : Prop :=
  exists c k, currchar t' = S k /\ get k line = Some c /\
              catcode t' c = Invalid.

(** The attributes that scanning never writes. *)
Definition same_config (t t' : Tokenizer) : Prop :=
  catcodes t' = catcodes t /\ endlinechar t' = endlinechar t /\
  next_token t' = next_token t /\ text t' = text t /\ lines t' = lines t.

(** The same, for each way a pass through the loop body can end. *)
Definition step_config (t : Tokenizer) (r : step_result) : Prop :=
  match r with
  | Return _ t' | Break t' | Continue t' | Raise _ t' => same_config t t'
  end.

(** Case analysis along the branches of [scan_char]. *)
Ltac case_scan :=
  repeat (match goal with
          | |- context [match ?x with _ => _ end] => destruct x eqn:?
          end; simpl); try discriminate.



(** [all(P(c) for c in s)] *)
Fixpoint string_forall (P : ascii -> bool) (s : string) : bool :=
  match s with
  | EmptyString => true
  | String c s' => P c && string_forall P s'
  end.

(** The character is classified [k] by the table [m]. *)
Definition has_code (m : gmap ascii CategoryCode) (k : CategoryCode)
    (c : ascii) : bool :=
  bool_decide (catcode_of m c = k).

(** The first character of [s], if any, is classified [k]. *)
Definition starts_with (m : gmap ascii CategoryCode) (k : CategoryCode)
    (s : string) : bool :=
  match s with
  | EmptyString => false
  | String c _ => has_code m k c
  end.

(** The three characters from offset [p] on are a [Superscript]-classified
    character and two lower-case hexadecimal digits. *)
Definition hex_form_at (m : gmap ascii CategoryCode) (line : string)
    (p : nat) : bool :=
  match get p line, get (p + 1) line, get (p + 2) line with
  | Some c2, Some h1, Some h2 =>
      has_code m Superscript c2 && is_lower_hex h1 && is_lower_hex h2
  | _, _, _ => false
  end.

(** The value of the two hexadecimal digits at offsets [p] and [p + 1]. *)
Definition hex_value_at (line : string) (p : nat) : nat :=
  match get p line, get (p + 1) line with
  | Some h1, Some h2 => 16 * hex_digit_value h1 + hex_digit_value h2
  | _, _ => 0
  end.

(** The characters that the loop drops without a token in state [st]:
    the [Ignored] ones, and the [Space] ones unless the state is
    [MiddleOfLine]. *)
Definition skipped (m : gmap ascii CategoryCode) (st : State) (c : ascii) : bool :=
  has_code m Ignored c
  || (has_code m Space c && negb (bool_decide (st = MiddleOfLine))).

(** [sum(len(line) for line in ls)] *)
Definition sum_lengths (ls : list string) : nat :=
  foldr (fun line acc => String.length line + acc) 0 ls.

(** The number of characters between the cursor and the end of the last
    line. *)
Definition remaining (t : Tokenizer) : nat :=
  match lines t with
  | BoundMethod => 0
  | LineList ls =>
      match drop (currline t) ls with
      | [] => 0
      | line :: later => (String.length line - currchar t) + sum_lengths later
      end
  end.

(** A character that ends its line when the loop reads it, and that no
    branch of the loop can take as the second part of a token: it is
    classified [EndOfLine] or [Comment] and is neither a digit nor a
    lower-case hexadecimal digit. *)
Definition line_end_ok (m : gmap ascii CategoryCode) (e : ascii) : bool :=
  (has_code m EndOfLine e || has_code m Comment e)
  && negb (isdigit e) && negb (is_lower_hex e).

(** A line whose last character is such a character and is not preceded
    by an [EscapeCharacter]-classified one. *)
Fixpoint well_ended (m : gmap ascii CategoryCode) (line : string) : bool :=
  match line with
  | EmptyString => false
  | String c rest =>
      match rest with
      | EmptyString => line_end_ok m c
      | String _ EmptyString =>
          negb (has_code m EscapeCharacter c) && well_ended m rest
      | _ => well_ended m rest
      end
  end.

(** No character of the line is classified [Invalid]. *)
Definition no_invalid (m : gmap ascii CategoryCode) (line : string) : bool :=
  string_forall (fun c => negb (has_code m Invalid c)) line.

(** The lines on which pulling is shown to end. *)
Definition scannable (m : gmap ascii CategoryCode) (ls : list string) : bool :=
  forallb (fun line => well_ended m line && no_invalid m line) ls.

(** How far one pass through the loop body moves the cursor. *)
Definition step_moves (line : string) (t : Tokenizer) (r : step_result) : Prop :=
  match r with
  | Return _ t' =>
      (currline t' = currline t /\
       currchar t < currchar t' <= String.length line) \/
      (currline t' = currline t + 1 /\ currchar t' = 0)
  | Break t' => currline t' = currline t + 1 /\ currchar t' = 0
  | Continue t' | Raise _ t' =>
      currline t' = currline t /\ currchar t' = currchar t + 1
  end.

(** The cursor of [t'] is not before the cursor of [t], and no more
    characters are left. *)
Definition not_back (t t' : Tokenizer) : Prop :=
  (currline t < currline t' \/
   (currline t' = currline t /\ currchar t <= currchar t')) /\
  remaining t' <= remaining t.

(** The cursor of [t'] is behind the cursor of [t], and fewer characters
    are left. *)
Definition advanced (t t' : Tokenizer) : Prop :=
  (currline t < currline t' \/
   (currline t' = currline t /\ currchar t < currchar t')) /\
  remaining t' < remaining t.

(** The number of tokens in the lookahead slot. *)
Definition slot_size (t : Tokenizer) : nat :=
  match next_token t with
  | Some _ => 1
  | None => 0
  end.

(** What one pass through the loop body does on a line that is well
    ended from the cursor on: the cursor stays in front of the last
    character of the line or moves to the start of the next line, and
    nothing is raised. *)
Definition step_well_ended (line : string) (t : Tokenizer) (r : step_result)
  : Prop :=
  match r with
  | Return _ t' =>
      (currline t' = currline t /\
       well_ended (catcodes t) (string_drop (currchar t') line) = true) \/
      (currline t' = currline t + 1 /\ currchar t' = 0)
  | Break t' => currline t' = currline t + 1 /\ currchar t' = 0
  | Continue t' =>
      currline t' = currline t /\
      well_ended (catcodes t) (string_drop (currchar t') line) = true
  | Raise _ _ => False
  end.

(** The cursor stands on a line that is well ended from there on, or
    behind the last line. *)
Definition placed (ls : list string) (t : Tokenizer) : Prop :=
  lines t = LineList ls /\
  match ls !! currline t with
  | Some line =>
      well_ended (catcodes t) (string_drop (currchar t) line) = true
  | None => True
  end.

(** [s[-1]], if [s] is not empty. *)
Fixpoint last_char (s : string) : option ascii :=
  match s with
  | EmptyString => None
  | String c EmptyString => Some c
  | String _ rest => last_char rest
  end.

(** The last character of [s] is classified [k]. *)
Definition ends_with (m : gmap ascii CategoryCode) (k : CategoryCode)
    (s : string) : bool :=
  match last_char s with
  | Some c => has_code m k c
  | None => false
  end.

(** A line of a text, before it is normalised, on which the default
    configuration is shown to end: no delete character, and no backslash
    at the end once the trailing whitespace is removed. *)
Definition plain_ending (line : string) : bool :=
  string_forall (fun c => negb (Ascii.eqb c DEL)) line
  && negb (match last_char (rstrip line) with
           | Some c => Ascii.eqb c "\"
           | None => false
           end).

(** One token for each character of [body], kinded by its classification,
    as the iterator yields them. *)
Fixpoint char_tokens (m : gmap ascii CategoryCode) (body : string)
  : list (option Token) :=
  match body with
  | EmptyString => []
  | String c rest =>
      Some (mkToken (str1 c) (catcode_of m c)) :: char_tokens m rest
  end.

(** [''.join(tok.value for tok in toks)] *)
Fixpoint joined (toks : list (option Token)) : string :=
  match toks with
  | [] => EmptyString
  | Some tok :: rest => value tok ++ joined rest
  | None :: rest => joined rest
  end.

(** The string has no whitespace at its start. *)
Definition no_leading_space (s : string) : Prop :=
  match s with
  | EmptyString => True
  | String c _ => isspace c = false
  end.

(** ** Sanity checks of the embedding *)

Example default_catcode_samples :
  catcode_of default_catcodes "\"%char = EscapeCharacter /\
  catcode_of default_catcodes "q"%char = Letter /\
  catcode_of default_catcodes "7"%char = Other /\
  catcode_of default_catcodes CR = EndOfLine /\
  catcode_of default_catcodes DEL = Invalid.
Proof. repeat (split; [reflexivity|]). reflexivity. Qed.

Example splitlines_samples :
  splitlines ("a" ++ str1 LF ++ str1 LF ++ "b") = ["a"; ""; "b"] /\
  splitlines ("a" ++ str1 CR ++ str1 LF ++ "b" ++ str1 LF) = ["a"; "b"] /\
  splitlines "" = [] /\
  splitlines (str1 LF) = [""] /\
  strip (" " ++ str1 LF ++ "a b" ++ str1 TAB ++ str1 LF) = "a b".
Proof. repeat (split; [reflexivity|]). reflexivity. Qed.

Example control_word_sample :
  fst (tokenize 9 9 "\abc" default_endlinechar)
  = [Some (mkToken "\abc" ControlSequence)].
Proof. reflexivity. Qed.

Lemma init_fresh (txt : string) (elc : pyarg) :
  init (Some txt) elc = Done tt (fresh txt elc).
Proof. reflexivity. Qed.

(** ** Strings: indexing and slicing *)

(** The condition [i < len(s)] of the loops, read off [get]. *)
Lemma get_None_length (s : string) (i : nat) :
  get i s = None <-> String.length s <= i.
Proof.
  revert i. induction s as [|c s IH]; intros i; simpl.
  - split; [lia | reflexivity].
  - destruct i as [|i]; simpl.
    + split; [discriminate | lia].
    + rewrite IH. lia.
Qed.

Lemma get_Some_length (s : string) (i : nat) (c : ascii) :
  get i s = Some c -> i < String.length s.
Proof.
  intros H. destruct (Nat.lt_ge_cases i (String.length s)) as [Hlt|Hge]; [exact Hlt|].
  apply get_None_length in Hge. congruence.
Qed.

Lemma get_app_r (pre s : string) (k : nat) :
  get (String.length pre + k) (pre ++ s) = get k s.
Proof. induction pre as [|c pre IH]; simpl; auto. Qed.

Lemma substring_app_r (pre s : string) (k m : nat) :
  substring (String.length pre + k) m (pre ++ s) = substring k m s.
Proof. induction pre as [|c pre IH]; simpl; auto. Qed.

Lemma substring_0_0 (s : string) : substring 0 0 s = EmptyString.
Proof. destruct s; reflexivity. Qed.

(** ** Frame properties of the engine *)

Lemma same_config_refl (t : Tokenizer) : same_config t t.
Proof. repeat split. Qed.

Lemma same_config_trans (t1 t2 t3 : Tokenizer) :
  same_config t1 t2 -> same_config t2 t3 -> same_config t1 t3.
Proof.
  unfold same_config. intros (?&?&?&?&?) (?&?&?&?&?).
  repeat split; congruence.
Qed.

Lemma scan_char_config (line : string) (char : ascii) (t : Tokenizer) :
  step_config t (scan_char line char t).
Proof.
  unfold scan_char.
  repeat (match goal with
          | |- context [match ?x with _ => _ end] => destruct x
          end; simpl);
    repeat split.
Qed.

Lemma inner_loop_config (fuel : nat) (line : string) (t : Tokenizer) :
  match inner_loop fuel line t with
  | LReturn _ t' | LExit t' | LRaise _ t' => same_config t t'
  | LOutOfFuel => True
  end.
Proof.
  revert t. induction fuel as [|fuel IH]; intros t; simpl.
  - destruct (get (currchar t) line); [exact I | apply same_config_refl].
  - destruct (get (currchar t) line) as [char|]; [|apply same_config_refl].
    pose proof (scan_char_config line char t) as Hs.
    destruct (scan_char line char t) as [tok t'|t'|t'|e t']; simpl in Hs; auto.
    specialize (IH t').
    destruct (inner_loop fuel line t'); auto;
      eapply same_config_trans; eauto.
Qed.

Lemma make_token_config (fuel : nat) (t : Tokenizer) :
  match make_token fuel t with
  | Done _ t' | Raised _ t' => same_config t t'
  | OutOfFuel => True
  end.
Proof.
  revert t. induction fuel as [|fuel IH]; intros t; simpl.
  - destruct (lines t) as [|ls]; [apply same_config_refl|].
    destruct (ls !! currline t); [exact I | apply same_config_refl].
  - destruct (lines t) as [|ls]; [apply same_config_refl|].
    destruct (ls !! currline t) as [line|]; [|apply same_config_refl].
    pose proof (inner_loop_config fuel line t) as Hi.
    destruct (inner_loop fuel line t) as [tok t'|t'| e t'|]; auto.
    specialize (IH t').
    destruct (make_token fuel t'); auto;
      eapply same_config_trans; eauto.
Qed.

(** A call that returns [None] leaves the cursor behind the last line. *)
Lemma make_token_None_exhausted (fuel : nat) (t t' : Tokenizer) :
  make_token fuel t = Done None t' ->
  exists ls, lines t' = LineList ls /\ ls !! currline t' = None.
Proof.
  revert t. induction fuel as [|fuel IH]; intros t; simpl.
  - destruct (lines t) as [|ls] eqn:Hl; [discriminate|].
    destruct (ls !! currline t) eqn:Hc; [discriminate|].
    intros [= <-]. eauto.
  - destruct (lines t) as [|ls] eqn:Hl; [discriminate|].
    destruct (ls !! currline t) as [line|] eqn:Hc.
    + destruct (inner_loop fuel line t) as [tok t1|t1|e t1|];
        try discriminate.
      apply IH.
    + intros [= <-]. eauto.
Qed.

(** Behind the last line every call returns [None] at once. *)
Lemma make_token_exhausted (fuel : nat) (t : Tokenizer) (ls : list string) :
  lines t = LineList ls -> ls !! currline t = None ->
  make_token fuel t = Done None t.
Proof. intros Hl Hc. destruct fuel; simpl; rewrite Hl, Hc; reflexivity. Qed.

(** The first pass through the loops decides the call when the body
    returns, breaks or raises. *)
Lemma make_token_step (fuel : nat) (t : Tokenizer) (ls : list string)
    (line : string) (char : ascii) :
  lines t = LineList ls -> ls !! currline t = Some line ->
  get (currchar t) line = Some char ->
  make_token (S (S fuel)) t =
    match scan_char line char t with
    | Return tok t' => Done (Some tok) t'
    | Break t' => make_token (S fuel) t'
    | Continue t' =>
        match inner_loop fuel line t' with
        | LReturn tok t'' => Done (Some tok) t''
        | LExit t'' => make_token (S fuel) t''
        | LRaise e t'' => Raised e t''
        | LOutOfFuel => OutOfFuel
        end
    | Raise e t' => Raised e t'
    end.
Proof.
  intros Hl Hc Hg.
  change (make_token (S (S fuel)) t) with
    (match lines t with
     | BoundMethod => Raised TypeError t
     | LineList ls =>
         match ls !! currline t with
         | None => Done None t
         | Some line =>
             match inner_loop (S fuel) line t with
             | LReturn tok t' => Done (Some tok) t'
             | LExit t' => make_token (S fuel) t'
             | LRaise e t' => Raised e t'
             | LOutOfFuel => OutOfFuel
             end
         end
     end).
  rewrite Hl, Hc.
  change (inner_loop (S fuel) line t) with
    (match get (currchar t) line with
     | None => LExit t
     | Some char =>
         match scan_char line char t with
         | Return tok t' => LReturn tok t'
         | Break t' => LExit t'
         | Continue t' => inner_loop fuel line t'
         | Raise e t' => LRaise e t'
         end
     end).
  rewrite Hg.
  destruct (scan_char line char t); reflexivity.
Qed.

(** One round of the iterator. *)
Lemma iter_S (n fuel : nat) (t : Tokenizer) :
  iter (S n) fuel t =
    match has_token fuel t with
    | Done true t1 =>
        match get_token fuel t1 with
        | Done tok t2 =>
            let '(toks, e) := iter n fuel t2 in (tok :: toks, e)
        | Raised e t2 => ([], Failed e t2)
        | OutOfFuel => ([], Unfinished)
        end
    | Done false t1 => ([], Finished t1)
    | Raised e t1 => ([], Failed e t1)
    | OutOfFuel => ([], Unfinished)
    end.
Proof. reflexivity. Qed.

(** The defect behind the missing advance: once the inner loop ends by its
    condition, on a line that is still the current one, the outer loop
    finds the same line again, whatever the number of iterations. *)
Lemma make_token_spins (t : Tokenizer) (ls : list string) (line : string) :
  lines t = LineList ls -> ls !! currline t = Some line ->
  get (currchar t) line = None ->
  forall fuel, make_token fuel t = OutOfFuel.
Proof.
  intros Hl Hc Hg fuel. induction fuel as [|fuel IH]; simpl; rewrite Hl, Hc.
  - reflexivity.
  - destruct fuel; simpl; rewrite Hg; exact IH.
Qed.

(** ** Termination of pulling (C1) *)

(** The iterator on the text [a] without end-of-line character: one token,
    and no end within any number of rounds. *)
Lemma iter_without_endlinechar (n fuel : nat) :
  iter (S (S n)) (S (S fuel)) (fresh "a" PyNone)
  = ([Some (mkToken "a" Letter)], Unfinished).
Proof.
  pose (t0 := fresh "a" PyNone).
  pose (t1 := set_state MiddleOfLine (set_currchar 1 t0)).
  assert (H0 : make_token (S (S fuel)) t0 = Done (Some (mkToken "a" Letter)) t1).
  { rewrite (make_token_step fuel t0 ["a"] "a" "a"%char); reflexivity. }
  assert (H1 : forall f, make_token f t1 = OutOfFuel).
  { apply (make_token_spins t1 ["a"] "a"); reflexivity. }
  rewrite iter_S. fold t0.
  unfold has_token at 1, peek at 1.
  change (next_token t0) with (@None Token). rewrite H0. cbn [and_then].
  rewrite bool_decide_eq_true_2 by discriminate.
  unfold get_token at 1. cbn [next_token set_next_token].
  change (set_next_token None (set_next_token (Some (mkToken "a" Letter)) t1)) with t1.
  rewrite iter_S.
  unfold has_token, peek. change (next_token t1) with (@None Token).
  rewrite H1. reflexivity.
Qed.

(** C1: pulling tokens from a text without any [Invalid]-classified
    character need not reach exhaustion.  With the end-of-line character
    disabled, the text [a] yields its letter and then [has_token] never
    returns; in the default configuration the text made of one backslash
    yields the control symbol that swallows the end-of-line character and
    then [has_token] never returns; with the end-of-line character
    disabled that same text raises [IndexError].  The iterator on the
    first text yields one token and does not end within any number of
    rounds. *)
Theorem C1_pulling_need_not_terminate :
  (forall txt elc, init (Some txt) elc = Done tt (fresh txt elc)) /\
  (let t1 := set_state MiddleOfLine (set_currchar 1 (fresh "a" PyNone)) in
   get_token 2 (fresh "a" PyNone) = Done (Some (mkToken "a" Letter)) t1 /\
   forall fuel, has_token fuel t1 = OutOfFuel) /\
  (let t1 := set_state MiddleOfLine
               (set_currchar 2 (fresh "\" default_endlinechar)) in
   get_token 2 (fresh "\" default_endlinechar)
   = Done (Some (mkToken ("\" ++ str1 CR) ControlSequence)) t1 /\
   forall fuel, has_token fuel t1 = OutOfFuel) /\
  get_token 2 (fresh "\" PyNone)
  = Raised IndexError (set_currchar 1 (fresh "\" PyNone)) /\
  (forall n fuel,
      tokenize (S (S n)) (S (S fuel)) "a" PyNone
      = ([Some (mkToken "a" Letter)], Unfinished)).
Proof.
  split; [reflexivity|]. split; [|split; [|split]].
  - split; [reflexivity|].
    intros fuel. unfold has_token, peek.
    change (next_token _) with (@None Token).
    rewrite (make_token_spins _ ["a"] "a"); [reflexivity | | | ];
      reflexivity.
  - split; [reflexivity|].
    intros fuel. unfold has_token, peek.
    change (next_token _) with (@None Token).
    rewrite (make_token_spins _ ["\" ++ str1 CR] ("\" ++ str1 CR));
      [reflexivity | | | ]; reflexivity.
  - reflexivity.
  - intros n fuel. unfold tokenize. rewrite init_fresh.
    apply iter_without_endlinechar.
Qed.

(** ** The superscript notation (C2, C3) *)

(** The text [^^A] in the default configuration is not turned into a
    comment: the first pull returns the literal token [(^, Superscript)]
    and consumes that one character only, and the run yields four tokens.
    Besides, [chr((0x41+64) mod 128)] is not the percent sign. *)
Lemma C2_counterexample :
  get_token 2 (fresh "^^A" default_endlinechar)
  = Done (Some (mkToken "^" Superscript))
      (set_state MiddleOfLine (set_currchar 1 (fresh "^^A" default_endlinechar))) /\
  fst (tokenize 9 9 "^^A" default_endlinechar)
  = [Some (mkToken "^" Superscript); Some (mkToken "^" Superscript);
     Some (mkToken "A" Letter); Some (mkToken " " Space)] /\
  chr ((ord "A" + 64) mod 128) <> "%"%char.
Proof. split; [reflexivity | split; [reflexivity | discriminate]]. Qed.

(** The superscript branch of the loop body always returns a token made of
    one character and kinded by the classification of that character. *)
Lemma scan_superscript (line : string) (c : ascii) (t : Tokenizer) :
  catcode t c = Superscript ->
  exists x k,
    scan_char line c t
    = Return (mkToken (str1 x) (catcode t x))
        (set_currchar (currchar t + k) (set_state MiddleOfLine t)) /\
    1 <= k <= 4.
Proof.
  intros Hc. unfold scan_char. rewrite Hc. cbn zeta.
  change (currchar (set_state MiddleOfLine (set_currchar (currchar t + 1) t)))
    with (currchar t + 1).
  assert (Hlit : exists x k,
             Return (mkToken (str1 c) Superscript)
               (set_state MiddleOfLine (set_currchar (currchar t + 1) t))
             = Return (mkToken (str1 x) (catcode t x))
                 (set_currchar (currchar t + k) (set_state MiddleOfLine t)) /\
             1 <= k <= 4).
  { exists c, 1. rewrite Hc. split; [reflexivity | lia]. }
  destruct (slice (currchar t + 1) 3 line) as [|c0 enc] eqn:Hs; [exact Hlit|].
  destruct (_ && _); [|exact Hlit].
  destruct (re_match_hex2 enc); [|exact Hlit].
  destruct (int16 enc <? 256).
  - exists (chr (int16 enc)), 4. split; [|lia].
    unfold set_currchar, set_state; simpl.
    replace (currchar t + 1 + 3) with (currchar t + 4) by lia. reflexivity.
  - destruct enc as [|e0 enc']; [exact Hlit|].
    destruct (ord e0 <? 128); [|exact Hlit].
    exists (chr ((ord e0 + 64) mod 128)), 3. split; [|lia].
    unfold set_currchar, set_state; simpl.
    replace (currchar t + 1 + 2) with (currchar t + 3) by lia. reflexivity.
Qed.

(** C2 (amended): when a [Superscript]-classified character is scanned,
    the pull returns at once one token whose text is a single character
    and whose kind is the classification of that character, in state
    [MiddleOfLine], on the same line, having consumed between one and four
    characters: a character decoded from the superscript notation is
    classified but never dispatched again through the transition table.
    [chr((0x41+64) mod 128)] is [chr(1)], which the default table
    classifies [Other]. *)
Theorem C2_superscript_returns_one_classified_char
    (t : Tokenizer) (ls : list string) (line : string) (c : ascii) :
  lines t = LineList ls -> ls !! currline t = Some line ->
  get (currchar t) line = Some c -> catcode t c = Superscript ->
  (exists x k,
      (forall fuel,
          make_token (S (S fuel)) t
          = Done (Some (mkToken (str1 x) (catcode t x)))
              (set_currchar (currchar t + k) (set_state MiddleOfLine t))) /\
      1 <= k <= 4) /\
  chr ((ord "A" + 64) mod 128) = chr 1 /\
  catcode_of default_catcodes (chr 1) = Other.
Proof.
  intros Hl Hc Hg Hk. split; [|split; reflexivity].
  destruct (scan_superscript line c t Hk) as (x & k & Hs & Hb).
  exists x, k. split; [|exact Hb].
  intros fuel. rewrite (make_token_step fuel t ls line c Hl Hc Hg), Hs.
  reflexivity.
Qed.

Lemma C2_witness :
  (exists x k,
      (forall fuel,
          make_token (S (S fuel)) (fresh "^^A" default_endlinechar)
          = Done (Some (mkToken (str1 x)
                          (catcode (fresh "^^A" default_endlinechar) x)))
              (set_currchar (0 + k)
                 (set_state MiddleOfLine (fresh "^^A" default_endlinechar)))) /\
      1 <= k <= 4) /\
  chr ((ord "A" + 64) mod 128) = chr 1 /\
  catcode_of default_catcodes (chr 1) = Other.
Proof.
  apply (C2_superscript_returns_one_classified_char
           (fresh "^^A" default_endlinechar) ["^^A" ++ str1 CR]
           ("^^A" ++ str1 CR) "^"%char); reflexivity.
Defined.

(** The text [^^25] decodes to the percent sign and is returned as a
    token of kind [Comment]; a literal percent sign at that place starts a
    comment and the pull returns no token. *)
Lemma C3_counterexample :
  let t := fresh "^^25" default_endlinechar in
  returned (make_token 5 (with_line (hex_line "" "^" "^" "2" "5" (str1 CR)) t))
  = Some (Some (mkToken "%" Comment)) /\
  returned (make_token 5 (with_line (literal_line "" "2" "5" (str1 CR)) t))
  = Some None /\
  with_line (hex_line "" "^" "^" "2" "5" (str1 CR)) t = t.
Proof. split; [reflexivity | split; reflexivity]. Qed.

Lemma hex_digit_value_bound (h : ascii) :
  is_lower_hex h = true -> hex_digit_value h <= 15.
Proof.
  unfold is_lower_hex, hex_digit_value.
  destruct (Nat.leb_spec 48 (ord h)), (Nat.leb_spec (ord h) 57),
    (Nat.leb_spec 97 (ord h)), (Nat.leb_spec (ord h) 102);
    simpl; intros; try discriminate; lia.
Qed.

Lemma int16_pair (h1 h2 : ascii) :
  int16 (String h1 (str1 h2)) = 16 * hex_digit_value h1 + hex_digit_value h2.
Proof. unfold int16, str1. simpl. lia. Qed.

Lemma get_app_here (pre : string) (c : ascii) (s : string) :
  get (String.length pre) (pre ++ String c s) = Some c.
Proof.
  rewrite <- (Nat.add_0_r (String.length pre)), get_app_r. reflexivity.
Qed.

Lemma with_line_lookup (line : string) (t : Tokenizer) (ls : list string) :
  lines t = LineList ls -> currline t < length ls ->
  exists ls', lines (with_line line t) = LineList ls' /\
              ls' !! currline (with_line line t) = Some line.
Proof.
  intros Hl Hlt. unfold with_line. rewrite Hl.
  exists (<[currline t := line]> ls). split; [reflexivity|].
  apply list_lookup_insert_eq. exact Hlt.
Qed.

Lemma scan_verbatim (line : string) (c : ascii) (t : Tokenizer) :
  verbatim (catcode t c) = true ->
  scan_char line c t
  = Return (mkToken (str1 c) (catcode t c))
      (set_state MiddleOfLine (set_currchar (currchar t + 1) t)).
Proof.
  unfold scan_char. destruct (catcode t c); simpl; intros H;
    try discriminate H; reflexivity.
Qed.

Lemma scan_hex_form (pre : string) (c1 c2 h1 h2 : ascii) (post : string)
    (t : Tokenizer) :
  currchar t = String.length pre ->
  catcode t c1 = Superscript -> catcode t c2 = Superscript ->
  is_lower_hex h1 = true -> is_lower_hex h2 = true ->
  scan_char (hex_line pre c1 c2 h1 h2 post) c1 t
  = Return (mkToken (str1 (chr (int16 (String h1 (str1 h2)))))
              (catcode t (chr (int16 (String h1 (str1 h2))))))
      (set_state MiddleOfLine (set_currchar (currchar t + 4) t)).
Proof.
  intros Hpos Hc1 Hc2 Hh1 Hh2.
  assert (Hn : (int16 (String h1 (str1 h2)) <? 256) = true).
  { apply Nat.ltb_lt. rewrite int16_pair.
    pose proof (hex_digit_value_bound h1 Hh1).
    pose proof (hex_digit_value_bound h2 Hh2). lia. }
  unfold scan_char. rewrite Hc1. cbn zeta.
  change (currchar (set_state MiddleOfLine (set_currchar (currchar t + 1) t)))
    with (currchar t + 1).
  unfold slice, hex_line. rewrite Hpos, substring_app_r. simpl substring.
  rewrite substring_0_0. cbv beta iota.
  change (catcode (set_state MiddleOfLine
                     (set_currchar (String.length pre + 1) t)) c2)
    with (catcode t c2).
  rewrite Hc2. fold (str1 h2). rewrite Hn.
  rewrite bool_decide_eq_true_2 by reflexivity.
  unfold re_match_hex2, str1. rewrite Hh1, Hh2.
  change (1 <? String.length (String c2 (String h1 (String h2 EmptyString))))
    with true.
  cbv beta iota delta [andb].
  unfold set_currchar, set_state, catcode; simpl.
  replace (String.length pre + 1 + 3) with (String.length pre + 4) by lia.
  reflexivity.
Qed.

(** C3 (amended): the hexadecimal form consumes three further characters
    and returns the decoded character as a token kinded by its
    classification, in state [MiddleOfLine], without dispatching it again;
    a literal occurrence of the decoded character at that place yields the
    same token and state when its classification is one of the categories
    that are returned verbatim. *)
Theorem C3_hex_form_token (t : Tokenizer) (ls : list string) (pre post : string)
    (c1 c2 h1 h2 : ascii) :
  lines t = LineList ls -> currline t < length ls ->
  currchar t = String.length pre ->
  catcode t c1 = Superscript -> catcode t c2 = Superscript ->
  is_lower_hex h1 = true -> is_lower_hex h2 = true ->
  let n := int16 (String h1 (str1 h2)) in
  let t_hex := with_line (hex_line pre c1 c2 h1 h2 post) t in
  let t_lit := with_line (literal_line pre h1 h2 post) t in
  n = 16 * hex_digit_value h1 + hex_digit_value h2 /\ n < 256 /\
  forall fuel,
    make_token (S (S fuel)) t_hex
    = Done (Some (mkToken (str1 (chr n)) (catcode t (chr n))))
        (set_state MiddleOfLine (set_currchar (currchar t + 4) t_hex)) /\
    (verbatim (catcode t (chr n)) = true ->
     make_token (S (S fuel)) t_lit
     = Done (Some (mkToken (str1 (chr n)) (catcode t (chr n))))
         (set_state MiddleOfLine (set_currchar (currchar t + 1) t_lit))).
Proof.
  intros Hl Hlt Hpos Hc1 Hc2 Hh1 Hh2 n t_hex t_lit.
  split; [apply int16_pair|]. split.
  { unfold n. rewrite int16_pair.
    pose proof (hex_digit_value_bound h1 Hh1).
    pose proof (hex_digit_value_bound h2 Hh2). lia. }
  intros fuel. split.
  - destruct (with_line_lookup (hex_line pre c1 c2 h1 h2 post) t ls Hl Hlt)
      as (ls' & Hl' & Hc').
    assert (Hpos' : currchar t_hex = String.length pre).
    { unfold t_hex, with_line. rewrite Hl. exact Hpos. }
    assert (Hcat : forall c, catcode t_hex c = catcode t c).
    { intros c. unfold t_hex, with_line. rewrite Hl. reflexivity. }
    rewrite (make_token_step fuel t_hex ls' (hex_line pre c1 c2 h1 h2 post) c1
               Hl' Hc').
    + rewrite scan_hex_form; rewrite ?Hcat; auto.
      replace (currchar t_hex) with (currchar t) by congruence. reflexivity.
    + rewrite Hpos'. apply get_app_here.
  - intros Hv.
    destruct (with_line_lookup (literal_line pre h1 h2 post) t ls Hl Hlt)
      as (ls' & Hl' & Hc').
    assert (Hpos' : currchar t_lit = String.length pre).
    { unfold t_lit, with_line. rewrite Hl. exact Hpos. }
    assert (Hcat : forall c, catcode t_lit c = catcode t c).
    { intros c. unfold t_lit, with_line. rewrite Hl. reflexivity. }
    rewrite (make_token_step fuel t_lit ls' (literal_line pre h1 h2 post)
               (chr n) Hl' Hc').
    + rewrite scan_verbatim; rewrite ?Hcat; auto.
      replace (currchar t_lit) with (currchar t) by congruence. reflexivity.
    + rewrite Hpos'. apply get_app_here.
Qed.

(** The text [^^41]: the hexadecimal form and the literal letter [A] yield
    the same token [(A, Letter)]. *)
Lemma C3_witness :
  let t := fresh "^^41" default_endlinechar in
  let t_hex := with_line (hex_line "" "^" "^" "4" "1" (str1 CR)) t in
  let t_lit := with_line (literal_line "" "4" "1" (str1 CR)) t in
  make_token 2 t_hex
  = Done (Some (mkToken "A" Letter))
      (set_state MiddleOfLine (set_currchar 4 t_hex)) /\
  make_token 2 t_lit
  = Done (Some (mkToken "A" Letter))
      (set_state MiddleOfLine (set_currchar 1 t_lit)).
Proof.
  intros t t_hex t_lit.
  destruct (C3_hex_form_token t ["^^41" ++ str1 CR] "" (str1 CR)
              "^" "^" "4" "1") as (_ & _ & H);
    [reflexivity | simpl; lia | reflexivity | reflexivity | reflexivity
    | reflexivity | reflexivity |].
  destruct (H 0) as [H1 H2]. split; [exact H1 | apply H2; reflexivity].
Defined.

(** ** Reset (C5) *)

(** C5: the first [reset] with a text, the one [__init__] performs, stores
    the normalised lines and the initial cursor, state and lookahead slot;
    every later [reset] with a text raises [TypeError], after it has
    reset cursor, state and slot and stored the stripped text, and leaves
    the lines of the earlier text in place. *)
Theorem C5_second_reset_raises (txt1 txt2 : string) (elc : pyarg) :
  init (Some txt1) elc = Done tt (fresh txt1 elc) /\
  lines (fresh txt1 elc)
  = LineList (map (fun line => match endlinechar_of elc with
                               | Some c => rstrip line ++ str1 c
                               | None => rstrip line
                               end)
                  (splitlines (strip txt1))) /\
  (currline (fresh txt1 elc), currchar (fresh txt1 elc)) = (0, 0) /\
  state (fresh txt1 elc) = NewLine /\
  next_token (fresh txt1 elc) = None /\
  reset (Some txt2) (fresh txt1 elc)
  = Raised TypeError (set_text (Some (strip txt2)) (fresh txt1 elc)) /\
  lines (set_text (Some (strip txt2)) (fresh txt1 elc)) = lines (fresh txt1 elc).
Proof. repeat (split; [reflexivity|]). reflexivity. Qed.

(** ** End of line (C4) *)

Lemma scan_end_of_line (line : string) (c : ascii) (t : Tokenizer) :
  catcode t c = EndOfLine ->
  scan_char line c t =
    match state t with
    | NewLine => Return (mkToken "\par" ControlSequence)
                   (set_state NewLine (next_line t))
    | SkippingSpaces => Break (set_state NewLine (next_line t))
    | MiddleOfLine => Return (mkToken " " Space)
                        (set_state NewLine (next_line t))
    end.
Proof.
  intros Hc. unfold scan_char. rewrite Hc. cbn zeta.
  change (state (set_currchar 0 (set_currline _ (set_currchar _ t))))
    with (state t).
  destruct (state t); reflexivity.
Qed.

(** C4: scanning an [EndOfLine]-classified character moves the cursor to
    offset 0 of the next line and sets the state to [NewLine]; the state
    held before decides what is emitted: [NewLine] gives the token
    [(\par, ControlSequence)], [SkippingSpaces] gives no token (scanning
    goes on with the next line), [MiddleOfLine] gives [( , Space)].  A
    blank line, entered in state [NewLine], gives exactly the one token
    [\par]; when it is the last line the run of the iterator yields that
    token and ends. *)
Theorem C4_end_of_line (t : Tokenizer) (ls : list string) (line : string)
    (c : ascii) :
  lines t = LineList ls -> ls !! currline t = Some line ->
  get (currchar t) line = Some c -> catcode t c = EndOfLine ->
  let t' := set_state NewLine (next_line t) in
  (currline t', currchar t', state t') = (currline t + 1, 0, NewLine) /\
  (forall fuel,
      make_token (S (S fuel)) t =
        match state t with
        | NewLine => Done (Some (mkToken "\par" ControlSequence)) t'
        | SkippingSpaces => make_token (S fuel) t'
        | MiddleOfLine => Done (Some (mkToken " " Space)) t'
        end) /\
  (line = str1 c -> state t = NewLine -> next_token t = None ->
   length ls = currline t + 1 ->
   forall n fuel,
     iter (S (S n)) (S (S fuel)) t
     = ([Some (mkToken "\par" ControlSequence)], Finished t')).
Proof.
  intros Hl Hc Hg Hk t'.
  assert (Hstep : forall fuel,
             make_token (S (S fuel)) t =
               match state t with
               | NewLine => Done (Some (mkToken "\par" ControlSequence)) t'
               | SkippingSpaces => make_token (S fuel) t'
               | MiddleOfLine => Done (Some (mkToken " " Space)) t'
               end).
  { intros fuel. rewrite (make_token_step fuel t ls line c Hl Hc Hg).
    rewrite (scan_end_of_line line c t Hk). destruct (state t); reflexivity. }
  split; [reflexivity|]. split; [exact Hstep|].
  intros _ Hs Hn Hlen n fuel.
  assert (Hend : forall f, make_token f t' = Done None t').
  { intros f. apply (make_token_exhausted f t' ls); [exact Hl|].
    apply lookup_ge_None_2. simpl. lia. }
  assert (Hend' : forall f,
             make_token f (set_next_token None t') = Done None t').
  { intros f. replace (set_next_token None t') with t'; [apply Hend|].
    unfold t', next_line, set_next_token, set_state, set_currchar,
      set_currline; simpl. rewrite Hn. reflexivity. }
  rewrite iter_S.
  unfold has_token at 1, peek. rewrite Hn, Hstep, Hs. cbn [and_then].
  rewrite bool_decide_eq_true_2 by discriminate.
  unfold get_token at 1. cbn [next_token set_next_token].
  change (set_next_token None
            (set_next_token (Some (mkToken "\par" ControlSequence)) t'))
    with (set_next_token None t').
  rewrite iter_S.
  unfold has_token, peek. cbn [next_token set_next_token].
  rewrite Hend'. cbn [and_then].
  replace (set_next_token None t') with t'.
  - reflexivity.
  - unfold t', next_line, set_next_token, set_state, set_currchar,
      set_currline; simpl. rewrite Hn. reflexivity.
Qed.

(** A line that holds the end-of-line character only, as the last line of
    a tokenizer in its initial state. *)
Lemma C4_witness :
  let t := mkTokenizer default_catcodes (Some CR) NewLine 0 0 None None
             (LineList [str1 CR]) in
  iter 2 2 t
  = ([Some (mkToken "\par" ControlSequence)],
     Finished (set_state NewLine (next_line t))).
Proof.
  intros t.
  destruct (C4_end_of_line t [str1 CR] (str1 CR) CR) as (_ & _ & H);
    [reflexivity | reflexivity | reflexivity | reflexivity |].
  apply H; reflexivity.
Defined.

(** A blank line between two paragraphs: the end of the first line gives a
    space, the blank line gives [\par]. *)
Example blank_line_between_paragraphs :
  fst (tokenize 9 9 ("a" ++ str1 LF ++ str1 LF ++ "b") default_endlinechar)
  = [Some (mkToken "a" Letter); Some (mkToken " " Space);
     Some (mkToken "\par" ControlSequence);
     Some (mkToken "b" Letter); Some (mkToken " " Space)].
Proof. reflexivity. Qed.

(** ** Comments (C9) *)

Lemma scan_comment (line : string) (c : ascii) (t : Tokenizer) :
  catcode t c = Comment -> scan_char line c t = Break (next_line t).
Proof. intros Hc. unfold scan_char. rewrite Hc. reflexivity. Qed.

(** C9: scanning a [Comment]-classified character drops the rest of the
    line whatever it holds, moves the cursor to offset 0 of the next line,
    emits no token and keeps the state; scanning goes on with the next
    line.  The text [a%comment] followed by the line [b] yields the
    letters [a] and [b] with no token between them. *)
Theorem C9_comment (t : Tokenizer) (ls : list string) (line : string)
    (c : ascii) :
  lines t = LineList ls -> ls !! currline t = Some line ->
  get (currchar t) line = Some c -> catcode t c = Comment ->
  let t' := next_line t in
  (currline t', currchar t', state t') = (currline t + 1, 0, state t) /\
  scan_char line c t = Break t' /\
  (forall fuel, make_token (S (S fuel)) t = make_token (S fuel) t') /\
  fst (tokenize 9 9 ("a%comment" ++ str1 LF ++ "b") default_endlinechar)
  = [Some (mkToken "a" Letter); Some (mkToken "b" Letter);
     Some (mkToken " " Space)].
Proof.
  intros Hl Hc Hg Hk t'.
  split; [reflexivity|]. split; [apply scan_comment; exact Hk|].
  split; [|reflexivity].
  intros fuel. rewrite (make_token_step fuel t ls line c Hl Hc Hg).
  rewrite (scan_comment line c t Hk). reflexivity.
Qed.

Lemma C9_witness :
  let t := set_state MiddleOfLine
             (set_currchar 1
                (fresh ("a%comment" ++ str1 LF ++ "b") default_endlinechar)) in
  make_token 3 t = make_token 2 (next_line t) /\
  make_token 2 (next_line t)
  = Done (Some (mkToken "b" Letter)) (set_currchar 1 (next_line t)).
Proof.
  intros t.
  destruct (C9_comment t [("a%comment" ++ str1 CR)%string; ("b" ++ str1 CR)%string]
              ("a%comment" ++ str1 CR) "%") as (_ & _ & H & _);
    [reflexivity | reflexivity | reflexivity | reflexivity |].
  split; [apply H | reflexivity].
Defined.

(** ** Parameter characters (C7) *)

Lemma scan_parameter (line : string) (c : ascii) (t : Tokenizer) :
  catcode t c = ParameterCharacter ->
  scan_char line c t =
    match get (currchar t + 1) line with
    | Some d =>
        if isdigit d then
          Return (mkToken (str1 c ++ str1 d) ParameterToken)
            (set_state MiddleOfLine (set_currchar (currchar t + 2) t))
        else if decide (catcode t d = ParameterCharacter) then
          Return (mkToken (str1 c) ParameterCharacter)
            (set_state MiddleOfLine (set_currchar (currchar t + 2) t))
        else
          Return (mkToken (str1 c) ParameterCharacter)
            (set_state MiddleOfLine (set_currchar (currchar t + 1) t))
    | None =>
        Return (mkToken (str1 c) ParameterCharacter)
          (set_state MiddleOfLine (set_currchar (currchar t + 1) t))
    end.
Proof.
  intros Hc. unfold scan_char. rewrite Hc. cbn zeta.
  change (currchar (set_currchar (currchar t + 1) t)) with (currchar t + 1).
  destruct (get (currchar t + 1) line) as [d|]; [|reflexivity].
  change (catcode (set_currchar (currchar t + 1) t) d) with (catcode t d).
  replace (currchar t + 2) with (currchar t + 1 + 1) by lia.
  destruct (isdigit d); [reflexivity|].
  destruct (decide (catcode t d = ParameterCharacter)); reflexivity.
Qed.

(** C7: after a [ParameterCharacter]-classified character [c], a digit is
    consumed and joined to [c] in a token of kind [ParameterToken]; a
    second parameter character is consumed and dropped and [c] alone is
    returned with kind [ParameterCharacter]; anything else, or the end of
    the line, is left in place, [c] alone is returned and the cursor stands
    on the character that follows.  The state becomes [MiddleOfLine] in
    every case.  With the default table [c] is the hash sign. *)
Theorem C7_parameter (t : Tokenizer) (ls : list string) (line : string)
    (c : ascii) :
  lines t = LineList ls -> ls !! currline t = Some line ->
  get (currchar t) line = Some c -> catcode t c = ParameterCharacter ->
  let after k := set_state MiddleOfLine (set_currchar (currchar t + k) t) in
  (forall d fuel,
      get (currchar t + 1) line = Some d -> isdigit d = true ->
      make_token (S (S fuel)) t
      = Done (Some (mkToken (str1 c ++ str1 d) ParameterToken)) (after 2)) /\
  (forall d fuel,
      get (currchar t + 1) line = Some d -> isdigit d = false ->
      catcode t d = ParameterCharacter ->
      make_token (S (S fuel)) t
      = Done (Some (mkToken (str1 c) ParameterCharacter)) (after 2)) /\
  (forall fuel,
      (forall d, get (currchar t + 1) line = Some d ->
                 isdigit d = false /\ catcode t d <> ParameterCharacter) ->
      make_token (S (S fuel)) t
      = Done (Some (mkToken (str1 c) ParameterCharacter)) (after 1) /\
      get (currchar (after 1)) line = get (currchar t + 1) line) /\
  (forall k, state (after k) = MiddleOfLine /\
             currline (after k) = currline t).
Proof.
  intros Hl Hc Hg Hk after.
  assert (Hstep : forall fuel,
             make_token (S (S fuel)) t =
               match scan_char line c t with
               | Return tok t' => Done (Some tok) t'
               | Break t' => make_token (S fuel) t'
               | Continue t' =>
                   match inner_loop fuel line t' with
                   | LReturn tok t'' => Done (Some tok) t''
                   | LExit t'' => make_token (S fuel) t''
                   | LRaise e t'' => Raised e t''
                   | LOutOfFuel => OutOfFuel
                   end
               | Raise e t' => Raised e t'
               end).
  { intros fuel. apply (make_token_step fuel t ls line c Hl Hc Hg). }
  repeat split.
  - intros d fuel Hd Hdig.
    rewrite Hstep, (scan_parameter line c t Hk), Hd, Hdig. reflexivity.
  - intros d fuel Hd Hdig Hpar.
    rewrite Hstep, (scan_parameter line c t Hk), Hd, Hdig.
    destruct (decide (catcode t d = ParameterCharacter)); [reflexivity|].
    contradiction.
  - rewrite Hstep, (scan_parameter line c t Hk).
    destruct (get (currchar t + 1) line) as [d|]; [|reflexivity].
    destruct (H d eq_refl) as [Hdig Hpar]. rewrite Hdig.
    destruct (decide (catcode t d = ParameterCharacter)); [|reflexivity].
    contradiction.
Qed.

Lemma C7_witness :
  let t := fresh "#1" default_endlinechar in
  make_token 2 t
  = Done (Some (mkToken "#1" ParameterToken))
      (set_state MiddleOfLine (set_currchar 2 t)).
Proof.
  intros t.
  destruct (C7_parameter t [("#1" ++ str1 CR)%string] ("#1" ++ str1 CR) "#")
    as (H & _); [reflexivity | reflexivity | reflexivity | reflexivity |].
  apply (H "1"%char 0); reflexivity.
Defined.

(** The three cases on the hash sign of the default table. *)
Example parameter_samples :
  fst (tokenize 9 9 "#1" default_endlinechar)
  = [Some (mkToken "#1" ParameterToken); Some (mkToken " " Space)] /\
  fst (tokenize 9 9 "##" default_endlinechar)
  = [Some (mkToken "#" ParameterCharacter); Some (mkToken " " Space)] /\
  fst (tokenize 9 9 "#a" default_endlinechar)
  = [Some (mkToken "#" ParameterCharacter); Some (mkToken "a" Letter);
     Some (mkToken " " Space)].
Proof. split; [reflexivity | split; reflexivity]. Qed.

(** ** The pull protocol (C6) *)

Lemma set_next_token_same (t : Tokenizer) :
  set_next_token (next_token t) t = t.
Proof. destruct t; reflexivity. Qed.

Lemma make_token_keeps_slot (fuel : nat) (t t' : Tokenizer)
    (tok : option Token) :
  make_token fuel t = Done tok t' -> next_token t' = next_token t.
Proof.
  intros H. pose proof (make_token_config fuel t) as Hc.
  rewrite H in Hc. destruct Hc as (_ & _ & Hn & _). exact Hn.
Qed.

Lemma peek_returned (fuel : nat) (t t1 : Tokenizer) (tok : option Token) :
  peek fuel t = Done tok t1 ->
  next_token t1 = tok /\
  (forall fuel', peek fuel' t1 = Done tok t1) /\
  (forall fuel', get_token fuel' t1 = Done tok (set_next_token None t1)) /\
  get_token fuel t = Done tok (set_next_token None t1) /\
  and_then (peek fuel t) (fun _ t' => get_token fuel t') = get_token fuel t.
Proof.
  unfold peek. destruct (next_token t) as [tk|] eqn:Hn.
  - (* the slot is full *)
    intros [= <- <-].
    split; [exact Hn|]. split; [intros f; rewrite Hn; reflexivity|].
    split; [intros f; unfold get_token; rewrite Hn; reflexivity|].
    split; [unfold get_token; rewrite Hn; reflexivity|].
    cbn [and_then]. reflexivity.
  - (* the slot is empty: the token is computed *)
    destruct (make_token fuel t) as [tk t'| |] eqn:Hm; cbn [and_then];
      try discriminate.
    intros [= <- <-].
    pose proof (make_token_keeps_slot fuel t t' tk Hm) as Hs.
    rewrite Hn in Hs.
    assert (Hclear : set_next_token None (set_next_token tk t') = t').
    { rewrite <- Hs at 1. destruct t'; reflexivity. }
    destruct tk as [tk|].
    + split; [reflexivity|].
      split; [intros f; reflexivity|].
      split; [intros f; reflexivity|].
      split.
      * unfold get_token. rewrite Hn, Hm, Hclear. reflexivity.
      * unfold get_token at 1. cbn [next_token set_next_token].
        unfold get_token. rewrite Hn, Hm, Hclear. reflexivity.
    + assert (Hsame : set_next_token None t' = t').
      { rewrite <- Hs. apply set_next_token_same. }
      rewrite !Hsame.
      destruct (make_token_None_exhausted fuel t t' Hm) as (ls & Hl & Hc).
      assert (Hagain : forall f, make_token f t' = Done None t').
      { intros f. apply (make_token_exhausted f t' ls Hl Hc). }
      split; [exact Hs|].
      split; [intros f; rewrite Hs; cbn [and_then]; rewrite Hagain;
              cbn [and_then]; rewrite Hsame; reflexivity|].
      split; [intros f; unfold get_token; rewrite Hs; apply Hagain|].
      split.
      * unfold get_token. rewrite Hn. exact Hm.
      * unfold get_token. rewrite Hs, Hn, Hm. apply Hagain.
Qed.

(** C6: [peek] does not consume.  Whenever [peek] returns, the token is
    the content of the slot, a further [peek] returns the same token and
    leaves the object as it is, whatever the fuel, and [get_token] then
    returns that token and empties the slot.  In every case, also when the
    scan fails or does not end, [peek] followed by [get_token] is the same
    computation as [get_token] alone. *)
Theorem C6_peek_idempotent (fuel : nat) (t : Tokenizer) :
  and_then (peek fuel t) (fun _ t' => get_token fuel t') = get_token fuel t /\
  forall tok t1,
    peek fuel t = Done tok t1 ->
    next_token t1 = tok /\
    (forall fuel', peek fuel' t1 = Done tok t1) /\
    (forall fuel', get_token fuel' t1 = Done tok (set_next_token None t1)) /\
    get_token fuel t = Done tok (set_next_token None t1).
Proof.
  split.
  - destruct (peek fuel t) as [tok t1| e t1 |] eqn:Hp.
    + apply (peek_returned fuel t t1 tok) in Hp as Hr.
      destruct Hr as (_ & _ & _ & _ & Hr). rewrite Hp in Hr. exact Hr.
    + unfold peek in Hp. unfold get_token.
      destruct (next_token t); [discriminate|].
      destruct (make_token fuel t); cbn [and_then] in *;
        try discriminate. symmetry. exact Hp.
    + unfold peek in Hp. unfold get_token.
      destruct (next_token t); [discriminate|].
      destruct (make_token fuel t); cbn [and_then] in *;
        try discriminate. reflexivity.
  - intros tok t1 Hp.
    destruct (peek_returned fuel t t1 tok Hp) as (H1 & H2 & H3 & H4 & _).
    repeat split; assumption.
Qed.

Lemma C6_witness :
  let t := fresh "ab" default_endlinechar in
  let t1 := set_next_token (Some (mkToken "a" Letter))
              (set_state MiddleOfLine (set_currchar 1 t)) in
  next_token t1 = Some (mkToken "a" Letter) /\
  (forall fuel', peek fuel' t1 = Done (Some (mkToken "a" Letter)) t1) /\
  (forall fuel', get_token fuel' t1
                 = Done (Some (mkToken "a" Letter)) (set_next_token None t1)) /\
  get_token 2 t = Done (Some (mkToken "a" Letter)) (set_next_token None t1).
Proof.
  intros t t1.
  destruct (C6_peek_idempotent 2 t) as [_ H].
  apply (H (Some (mkToken "a" Letter)) t1).
  reflexivity.
Defined.

(** ** Errors and exhaustion (C8) *)

(** After the pull on an [Invalid]-classified character has raised, the
    cursor stands behind that character and the next pull returns the
    letter that follows: scanning does continue past the offset. *)
Lemma C8_counterexample :
  let t := fresh (str1 DEL ++ "a") default_endlinechar in
  get_token 2 t = Raised InvalidCharacter (set_currchar 1 t) /\
  get_token 2 (set_currchar 1 t)
  = Done (Some (mkToken "a" Letter))
      (set_state MiddleOfLine (set_currchar 2 t)).
Proof. split; reflexivity. Qed.

Lemma scan_invalid (line : string) (c : ascii) (t : Tokenizer) :
  catcode t c = Invalid ->
  scan_char line c t = Raise InvalidCharacter (set_currchar (currchar t + 1) t).
Proof. intros Hc. unfold scan_char. rewrite Hc. reflexivity. Qed.

Lemma scan_raise_invalid (line : string) (c : ascii) (t t' : Tokenizer) :
  scan_char line c t = Raise InvalidCharacter t' ->
  catcode t c = Invalid /\ t' = set_currchar (currchar t + 1) t.
Proof.
  unfold scan_char. destruct (catcode t c) eqn:Hc; cbn zeta;
    try solve [case_scan].
  intros [= <-]. split; reflexivity.
Qed.

Lemma scan_continue (line : string) (c : ascii) (t t' : Tokenizer) :
  scan_char line c t = Continue t' -> t' = set_currchar (currchar t + 1) t.
Proof.
  unfold scan_char. destruct (catcode t c) eqn:Hc; cbn zeta;
    try solve [case_scan].
  - intros [= <-]. reflexivity.
  - destruct (state (set_currchar (currchar t + 1) t)); try discriminate;
      intros [= <-]; reflexivity.
Qed.

Lemma inner_loop_raise_invalid (fuel : nat) (line : string)
    (t t' : Tokenizer) :
  inner_loop fuel line t = LRaise InvalidCharacter t' ->
  behind_invalid line t' /\ currline t' = currline t.
Proof.
  revert t. induction fuel as [|fuel IH]; intros t; simpl.
  - destruct (get (currchar t) line); discriminate.
  - destruct (get (currchar t) line) as [c|] eqn:Hg; [|discriminate].
    destruct (scan_char line c t) as [tok t1|t1|t1|e t1] eqn:Hs;
      try discriminate.
    + intros H. apply IH in H. destruct H as [Hb Hl].
      apply scan_continue in Hs. subst t1. split; [exact Hb | exact Hl].
    + intros [= -> ->]. apply scan_raise_invalid in Hs.
      destruct Hs as [Hc ->]. split; [|reflexivity].
      exists c, (currchar t). simpl. repeat split; [lia | exact Hg | exact Hc].
Qed.

Lemma make_token_raise_invalid (fuel : nat) (t t' : Tokenizer) :
  make_token fuel t = Raised InvalidCharacter t' ->
  exists ls line, lines t' = LineList ls /\
                  ls !! currline t' = Some line /\ behind_invalid line t'.
Proof.
  revert t. induction fuel as [|fuel IH]; intros t; simpl.
  - destruct (lines t) as [|ls]; [discriminate|].
    destruct (ls !! currline t); discriminate.
  - destruct (lines t) as [|ls] eqn:Hl; [discriminate|].
    destruct (ls !! currline t) as [line|] eqn:Hc; [|discriminate].
    pose proof (inner_loop_config fuel line t) as Hcfg.
    destruct (inner_loop fuel line t) as [tok t1|t1|e t1|] eqn:Hi;
      try discriminate.
    + apply IH.
    + intros [= -> ->]. apply inner_loop_raise_invalid in Hi.
      destruct Hi as [Hb Hcl]. destruct Hcfg as (_ & _ & _ & _ & Hls).
      exists ls, line. rewrite Hls, Hcl. auto.
Qed.

(** C8 (amended): the pull raises the invalid-character error when the
    character at the cursor is classified [Invalid], and only behind a
    character so classified; that pull returns no token and leaves the
    cursor just behind the character, with nothing else changed, so that a
    later pull goes on from there.  Exhaustion is no error: behind the
    last line [make_token] returns [None] and [has_token] answers false,
    and [has_token] answers false only there. *)
Theorem C8_invalid_character (fuel : nat) (t : Tokenizer) :
  (forall ls line c,
      lines t = LineList ls -> ls !! currline t = Some line ->
      get (currchar t) line = Some c -> catcode t c = Invalid ->
      make_token (S (S fuel)) t
      = Raised InvalidCharacter (set_currchar (currchar t + 1) t)) /\
  (forall t',
      make_token fuel t = Raised InvalidCharacter t' ->
      exists ls line c k,
        lines t' = LineList ls /\ ls !! currline t' = Some line /\
        currchar t' = S k /\ get k line = Some c /\ catcode t' c = Invalid) /\
  (forall ls,
      lines t = LineList ls -> length ls <= currline t ->
      next_token t = None ->
      make_token fuel t = Done None t /\ has_token fuel t = Done false t) /\
  (forall t',
      has_token fuel t = Done false t' ->
      exists ls, lines t' = LineList ls /\ length ls <= currline t').
Proof.
  split; [|split; [|split]].
  - intros ls line c Hl Hc Hg Hk.
    rewrite (make_token_step fuel t ls line c Hl Hc Hg).
    rewrite (scan_invalid line c t Hk). reflexivity.
  - intros t' H. apply make_token_raise_invalid in H.
    destruct H as (ls & line & Hl & Hc & c & k & Hp & Hg & Hk).
    exists ls, line, c, k. auto.
  - intros ls Hl Hlen Hn.
    assert (Hm : make_token fuel t = Done None t).
    { apply (make_token_exhausted fuel t ls Hl).
      apply lookup_ge_None_2. exact Hlen. }
    split; [exact Hm|].
    unfold has_token, peek. rewrite Hn, Hm. cbn [and_then].
    replace (set_next_token None t) with t
      by (rewrite <- Hn; symmetry; apply set_next_token_same).
    reflexivity.
  - intros t'. unfold has_token, peek.
    destruct (next_token t) as [tk|] eqn:Hn; cbn [and_then].
    + rewrite bool_decide_eq_true_2 by discriminate. intros [=].
    + destruct (make_token fuel t) as [[tk|] t1| |] eqn:Hm; cbn [and_then];
        try solve [intros [=]].
      intros [= <-].
      destruct (make_token_None_exhausted fuel t t1 Hm) as (ls & Hl & Hc).
      exists ls. split; [exact Hl|].
      apply lookup_ge_None_1 in Hc. exact Hc.
Qed.

Lemma C8_witness :
  let t := fresh (str1 DEL ++ "a") default_endlinechar in
  make_token 2 t = Raised InvalidCharacter (set_currchar 1 t) /\
  (exists ls line c k,
      lines (set_currchar 1 t) = LineList ls /\
      ls !! currline (set_currchar 1 t) = Some line /\
      currchar (set_currchar 1 t) = S k /\ get k line = Some c /\
      catcode (set_currchar 1 t) c = Invalid) /\
  make_token 2 (set_currline 1 t) = Done None (set_currline 1 t) /\
  has_token 2 (set_currline 1 t) = Done false (set_currline 1 t).
Proof.
  intros t.
  destruct (C8_invalid_character 0 t) as (H1 & _).
  destruct (C8_invalid_character 2 t) as (_ & H2 & _).
  destruct (C8_invalid_character 2 (set_currline 1 t)) as (_ & _ & H3 & _).
  split; [|split].
  - apply (H1 [(str1 DEL ++ "a" ++ str1 CR)%string]
              (str1 DEL ++ "a" ++ str1 CR) DEL); reflexivity.
  - apply H2. reflexivity.
  - apply (H3 [(str1 DEL ++ "a" ++ str1 CR)%string]);
      [reflexivity | simpl; lia | reflexivity].
Defined.

(** ** Tokens are never empty (C10) *)

Lemma length_app (s1 s2 : string) :
  String.length (s1 ++ s2) = String.length s1 + String.length s2.
Proof. induction s1 as [|c s1 IH]; simpl; auto. Qed.

Lemma control_word_length (m : gmap ascii CategoryCode) (rest token : string)
    (pos : nat) :
  String.length token <= String.length (fst (control_word m rest token pos)).
Proof.
  revert token pos. induction rest as [|c rest IH]; intros token pos; simpl.
  - lia.
  - destruct (catcode_of m c); simpl; try lia.
    etransitivity; [|apply IH]. rewrite length_app. lia.
Qed.

Lemma scan_return_nonempty (line : string) (c : ascii) (t t' : Tokenizer)
    (tok : Token) :
  scan_char line c t = Return tok t' -> nonempty tok.
Proof.
  unfold scan_char, nonempty.
  destruct (catcode t c) eqn:Hc; cbn zeta;
    try (intros [= <- _]; simpl; lia).
  - (* escape *)
    destruct (get _ line) as [d|]; [|discriminate].
    destruct (catcode _ d);
      try (intros [= <- _]; simpl; lia).
    match goal with
    | |- context [control_word ?m ?r ?k ?p] =>
        pose proof (control_word_length m r k p) as Hw;
        destruct (control_word m r k p) as [w q]
    end.
    intros [= <- _]. simpl in *. lia.
  - (* end of line *)
    destruct (state _); try discriminate; intros [= <- _]; simpl; lia.
  - (* parameter *)
    destruct (get _ line) as [d|]; [|intros [= <- _]; simpl; lia].
    destruct (isdigit d); [intros [= <- _]; simpl; lia|].
    destruct (decide _); intros [= <- _]; simpl; lia.
  - (* superscript *)
    destruct (slice _ 3 line) as [|c0 enc]; [intros [= <- _]; simpl; lia|].
    destruct (_ && _); [|intros [= <- _]; simpl; lia].
    destruct (re_match_hex2 enc); [|intros [= <- _]; simpl; lia].
    destruct (_ <? 256); [intros [= <- _]; simpl; lia|].
    destruct enc as [|e0 enc']; [intros [= <- _]; simpl; lia|].
    destruct (_ <? 128); intros [= <- _]; simpl; lia.
  - (* space *)
    destruct (state _); try discriminate; intros [= <- _]; simpl; lia.
Qed.

Lemma inner_loop_nonempty (fuel : nat) (line : string) (t t' : Tokenizer)
    (tok : Token) :
  inner_loop fuel line t = LReturn tok t' -> nonempty tok.
Proof.
  revert t. induction fuel as [|fuel IH]; intros t; simpl.
  - destruct (get (currchar t) line); discriminate.
  - destruct (get (currchar t) line) as [c|]; [|discriminate].
    destruct (scan_char line c t) as [tk t1|t1|t1|e t1] eqn:Hs;
      try discriminate.
    + intros [= <- _]. eapply scan_return_nonempty; eauto.
    + apply IH.
Qed.

Lemma make_token_nonempty (fuel : nat) (t t' : Tokenizer) (tok : Token) :
  make_token fuel t = Done (Some tok) t' -> nonempty tok.
Proof.
  revert t. induction fuel as [|fuel IH]; intros t; simpl.
  - destruct (lines t) as [|ls]; [discriminate|].
    destruct (ls !! currline t); discriminate.
  - destruct (lines t) as [|ls]; [discriminate|].
    destruct (ls !! currline t) as [line|]; [|discriminate].
    destruct (inner_loop fuel line t) as [tk t1|t1|e t1|] eqn:Hi;
      try discriminate.
    + intros [= <- _]. eapply inner_loop_nonempty; eauto.
    + apply IH.
Qed.

Lemma get_token_nonempty (fuel : nat) (t t' : Tokenizer) (tok : Token) :
  slot_ok t -> get_token fuel t = Done (Some tok) t' ->
  nonempty tok /\ slot_ok t'.
Proof.
  unfold slot_ok, get_token. destruct (next_token t) as [tk|] eqn:Hn.
  - intros Hok [= <- <-]. split; [exact Hok | exact I].
  - intros _ Hm. split; [eapply make_token_nonempty; eauto|].
    rewrite (make_token_keeps_slot fuel t t' (Some tok) Hm), Hn. exact I.
Qed.

Lemma has_token_true (fuel : nat) (t t1 : Tokenizer) :
  slot_ok t -> has_token fuel t = Done true t1 ->
  exists tok, next_token t1 = Some tok /\ nonempty tok.
Proof.
  unfold slot_ok, has_token, peek.
  destruct (next_token t) as [tk|] eqn:Hn; cbn [and_then].
  - intros Hok [= <-]. eauto.
  - intros _. destruct (make_token fuel t) as [[tk|] t'| |] eqn:Hm;
      cbn [and_then]; try solve [intros [=]].
    intros [= <-]. exists tk. split; [reflexivity|].
    eapply make_token_nonempty; eauto.
Qed.

Lemma iter_nonempty (n fuel : nat) (t : Tokenizer) :
  slot_ok t -> Forall yielded_ok (fst (iter n fuel t)).
Proof.
  revert t. induction n as [|n IH]; intros t Hok; simpl; [constructor|].
  destruct (has_token fuel t) as [[|] t1|e t1|] eqn:Hh;
    try (simpl; constructor).
  destruct (has_token_true fuel t t1 Hok Hh) as (tok & Hs & Hne).
  unfold get_token. rewrite Hs.
  specialize (IH (set_next_token None t1) I).
  destruct (iter n fuel (set_next_token None t1)) as [toks e].
  simpl in *. constructor; [|exact IH].
  exists tok. auto.
Qed.

(** C10: every token has at least one character.  This holds for each
    token [make_token] returns, from any state of the object and for any
    classification table; [get_token] hands out such tokens only and keeps
    the slot in order; and all the values the iterator yields are tokens
    with at least one character, in particular for every text and every
    end-of-line argument given to the constructor. *)
Theorem C10_tokens_nonempty :
  (forall fuel t t' tok,
      make_token fuel t = Done (Some tok) t' ->
      1 <= String.length (value tok)) /\
  (forall fuel t t' tok,
      slot_ok t -> get_token fuel t = Done (Some tok) t' ->
      1 <= String.length (value tok) /\ slot_ok t') /\
  (forall n fuel t,
      slot_ok t -> Forall yielded_ok (fst (iter n fuel t))) /\
  (forall n fuel txt elc,
      Forall yielded_ok (fst (tokenize n fuel txt elc))).
Proof.
  split; [|split; [|split]].
  - intros fuel t t' tok H. exact (make_token_nonempty fuel t t' tok H).
  - intros fuel t t' tok Hok H. exact (get_token_nonempty fuel t t' tok Hok H).
  - intros n fuel t Hok. exact (iter_nonempty n fuel t Hok).
  - intros n fuel txt elc. unfold tokenize. rewrite init_fresh.
    apply iter_nonempty. exact I.
Qed.

Lemma C10_witness :
  1 <= String.length (value (mkToken "\abc" ControlSequence)) /\
  Forall yielded_ok
    (fst (iter 9 9 (set_catcode "b" Superscript
                      (fresh "\abc b^^41" default_endlinechar)))).
Proof.
  destruct C10_tokens_nonempty as (H1 & _ & H3 & _).
  split.
  - apply (H1 2 (fresh "\abc" default_endlinechar)
              (set_state SkippingSpaces
                 (set_currchar 4 (fresh "\abc" default_endlinechar)))).
    reflexivity.
  - apply H3. exact I.
Defined.

(** * Further properties of the code *)

(** ** The end-of-line character *)

Lemma ord_chr (n : nat) : n < 256 -> ord (chr n) = n.
Proof. apply nat_ascii_embedding. Qed.

(** [set_endlinechar]: the character that is stored always has a code
    below 255; an integer below 255 and the one-character string of that
    code store the same character; strings of any other length, integers
    out of the range and the character of code 255 disable the end-of-line
    character. *)
Theorem X1_set_endlinechar_range (t : Tokenizer) :
  (forall arg c,
      endlinechar (set_endlinechar arg t) = Some c -> ord c < 255) /\
  (forall n,
      n < 255 ->
      set_endlinechar (PyInt (Z.of_nat n)) t
      = set_endlinechar (PyStr (str1 (chr n))) t /\
      endlinechar (set_endlinechar (PyInt (Z.of_nat n)) t) = Some (chr n)) /\
  (forall s,
      String.length s <> 1 ->
      endlinechar (set_endlinechar (PyStr s) t) = None) /\
  (forall z,
      (z < 0 \/ 255 <= z)%Z ->
      endlinechar (set_endlinechar (PyInt z) t) = None) /\
  endlinechar (set_endlinechar (PyStr (str1 (chr 255))) t) = None.
Proof.
  split; [|split; [|split; [|split]]].
  - intros arg c. unfold set_endlinechar; simpl.
    destruct arg as [s|z|]; simpl; try discriminate.
    + destruct s as [|a [|b s]]; try discriminate.
      destruct (Nat.ltb_spec (ord a) 255); [|discriminate].
      intros [= <-]. assumption.
    + destruct (Z.leb_spec 0 z), (Z.ltb_spec z 255); simpl;
        try discriminate.
      intros [= <-]. rewrite ord_chr; lia.
  - intros n Hn. unfold set_endlinechar, endlinechar_of, str1; simpl.
    rewrite ord_chr by lia.
    destruct (Nat.ltb_spec n 255); [|lia].
    destruct (Z.leb_spec 0 (Z.of_nat n)); [|lia].
    destruct (Z.ltb_spec (Z.of_nat n) 255); [|lia].
    simpl. rewrite Nat2Z.id. split; reflexivity.
  - intros s Hs. unfold set_endlinechar; simpl.
    destruct s as [|a [|b s]]; simpl in *; try reflexivity. lia.
  - intros z Hz. unfold set_endlinechar; simpl.
    destruct (Z.leb_spec 0 z), (Z.ltb_spec z 255); simpl;
      try reflexivity. lia.
  - reflexivity.
Qed.

Lemma X1_witness :
  ord CR < 255 /\
  (set_endlinechar (PyInt (Z.of_nat 13)) (fresh "a" PyNone)
   = set_endlinechar (PyStr (str1 (chr 13))) (fresh "a" PyNone) /\
   endlinechar (set_endlinechar (PyInt (Z.of_nat 13)) (fresh "a" PyNone))
   = Some (chr 13)) /\
  endlinechar (set_endlinechar (PyStr "ab") (fresh "a" PyNone)) = None /\
  endlinechar (set_endlinechar (PyInt 255) (fresh "a" PyNone)) = None.
Proof.
  destruct (X1_set_endlinechar_range (fresh "a" PyNone))
    as (H1 & H2 & H3 & H4 & _).
  split; [|split; [|split]].
  - apply (H1 default_endlinechar CR). reflexivity.
  - apply (H2 13). lia.
  - apply (H3 "ab"). simpl. lia.
  - apply (H4 255%Z). lia.
Defined.

(** ** What scanning leaves alone *)











(** ** Rewinding *)



(** ** Exhaustion *)

(** Exhaustion is final: once [has_token] has answered false, every later
    [has_token] answers false, [peek] and [get_token] return [None], the
    iterator yields nothing, and none of them changes the object, whatever
    the fuel. *)
Theorem X4_exhaustion_is_final (fuel : nat) (t t1 : Tokenizer) :
  has_token fuel t = Done false t1 ->
  forall fuel',
    has_token fuel' t1 = Done false t1 /\
    peek fuel' t1 = Done None t1 /\
    get_token fuel' t1 = Done None t1 /\
    forall n, iter (S n) fuel' t1 = ([], Finished t1).
Proof.
  unfold has_token at 1, peek at 1.
  destruct (next_token t) as [tk|] eqn:Hn; cbn [and_then].
  { rewrite bool_decide_eq_true_2 by discriminate. intros [=]. }
  destruct (make_token fuel t) as [[tk|] t'| |] eqn:Hm; cbn [and_then];
    try solve [intros [=]].
  intros [= <-] fuel'.
  pose proof (make_token_keeps_slot fuel t t' None Hm) as Hs.
  rewrite Hn in Hs.
  assert (Hsame : set_next_token None t' = t').
  { rewrite <- Hs. apply set_next_token_same. }
  rewrite Hsame.
  destruct (make_token_None_exhausted fuel t t' Hm) as (ls & Hl & Hc).
  assert (Hagain : make_token fuel' t' = Done None t').
  { apply (make_token_exhausted fuel' t' ls Hl Hc). }
  assert (Hp : peek fuel' t' = Done None t').
  { unfold peek. rewrite Hs, Hagain. cbn [and_then]. rewrite Hsame.
    reflexivity. }
  assert (Hh : has_token fuel' t' = Done false t').
  { unfold has_token. rewrite Hp. reflexivity. }
  split; [exact Hh|]. split; [exact Hp|]. split.
  - unfold get_token. rewrite Hs. exact Hagain.
  - intros n. rewrite iter_S, Hh. reflexivity.
Qed.

Lemma X4_witness :
  let t1 := set_currline 1 (fresh "%" default_endlinechar) in
  has_token 5 t1 = Done false t1 /\
  peek 5 t1 = Done None t1 /\
  get_token 5 t1 = Done None t1 /\
  forall n, iter (S n) 5 t1 = ([], Finished t1).
Proof.
  intros t1.
  apply (X4_exhaustion_is_final 2 (fresh "%" default_endlinechar) t1).
  reflexivity.
Defined.

(** ** A tokenizer built without text *)

(** [Tokenizer()] without text succeeds, but the name [lines] still
    resolves to the method: every pull raises [TypeError] and leaves the
    object as it is.  The first [reset] with a text then succeeds and
    gives the object that [Tokenizer(text)] builds. *)
Theorem X5_tokenizer_without_text (elc : pyarg) (fuel : nat) :
  exists t,
    init None elc = Done tt t /\
    lines t = BoundMethod /\
    peek fuel t = Raised TypeError t /\
    has_token fuel t = Raised TypeError t /\
    get_token fuel t = Raised TypeError t /\
    fst (iter (S fuel) fuel t) = [] /\
    forall txt, reset (Some txt) t = init (Some txt) elc.
Proof.
  eexists. split; [reflexivity|].
  assert (Hm : forall t, lines t = BoundMethod ->
                         make_token fuel t = Raised TypeError t).
  { intros t Hl. destruct fuel; simpl; rewrite Hl; reflexivity. }
  split; [reflexivity|].
  split; [unfold peek; cbn [next_token]; rewrite Hm; reflexivity|].
  split; [unfold has_token, peek; cbn [next_token]; rewrite Hm;
          reflexivity|].
  split; [unfold get_token; cbn [next_token]; rewrite Hm; reflexivity|].
  split; [|reflexivity].
  rewrite iter_S. unfold has_token, peek; cbn [next_token].
  rewrite Hm; reflexivity.
Qed.

(** ** Control sequences *)

Lemma string_drop_app_r (pre s : string) (k : nat) :
  string_drop (String.length pre + k) (pre ++ s) = string_drop k s.
Proof. induction pre as [|c pre IH]; simpl; auto. Qed.

Lemma app_nil_l (s : string) : "" ++ s = s.
Proof. reflexivity. Qed.

Lemma app_cons (c : ascii) (s1 s2 : string) :
  String c s1 ++ s2 = String c (s1 ++ s2).
Proof. reflexivity. Qed.

Lemma app_nil_r (s : string) : s ++ "" = s.
Proof. induction s as [|c s IH]; [reflexivity|]. rewrite app_cons, IH. reflexivity. Qed.

Lemma app_assoc_str (s1 s2 s3 : string) : (s1 ++ s2) ++ s3 = s1 ++ (s2 ++ s3).
Proof.
  induction s1 as [|c s1 IH]; [reflexivity|].
  rewrite !app_cons, IH. reflexivity.
Qed.

Lemma has_code_true (m : gmap ascii CategoryCode) (k : CategoryCode) (c : ascii) :
  has_code m k c = true <-> catcode_of m c = k.
Proof. unfold has_code. apply bool_decide_eq_true. Qed.

Lemma has_code_false (m : gmap ascii CategoryCode) (k : CategoryCode) (c : ascii) :
  has_code m k c = false <-> catcode_of m c <> k.
Proof. unfold has_code. apply bool_decide_eq_false. Qed.

(** The loop of the control word takes exactly the run of letters. *)
Lemma control_word_run (m : gmap ascii CategoryCode) (w rest token : string)
    (pos : nat) :
  string_forall (has_code m Letter) w = true ->
  starts_with m Letter rest = false ->
  control_word m (w ++ rest) token pos = (token ++ w, pos + String.length w).
Proof.
  revert token pos. induction w as [|c w IH]; intros token pos Hw Hr.
  - rewrite app_nil_l, app_nil_r. simpl String.length.
    rewrite Nat.add_0_r. destruct rest as [|d rest]; [reflexivity|].
    simpl in Hr. apply has_code_false in Hr. simpl.
    destruct (catcode_of m d); try reflexivity. contradiction.
  - simpl in Hw. apply andb_true_iff in Hw. destruct Hw as [Hc Hw].
    apply has_code_true in Hc. rewrite app_cons. simpl control_word.
    rewrite Hc.
    rewrite (IH _ _ Hw Hr), app_assoc_str. simpl String.length.
    f_equal. lia.
Qed.

(** The escape branch of the loop body. *)
Lemma scan_escape (line : string) (c : ascii) (t : Tokenizer) :
  catcode t c = EscapeCharacter ->
  scan_char line c t =
    match get (currchar t + 1) line with
    | None => Raise IndexError (set_currchar (currchar t + 1) t)
    | Some d =>
        match catcode t d with
        | Letter =>
            let '(token, pos) :=
              control_word (catcodes t) (string_drop (currchar t + 2) line)
                (String c (str1 d)) (currchar t + 2) in
            Return (mkToken token ControlSequence)
              (set_state SkippingSpaces (set_currchar pos t))
        | Space =>
            Return (mkToken (String c (str1 d)) ControlSequence)
              (set_state SkippingSpaces (set_currchar (currchar t + 2) t))
        | _ =>
            Return (mkToken (String c (str1 d)) ControlSequence)
              (set_state MiddleOfLine (set_currchar (currchar t + 2) t))
        end
    end.
Proof.
  intros Hc. unfold scan_char. rewrite Hc. cbn zeta.
  change (currchar (set_currchar (currchar t + 1) t)) with (currchar t + 1).
  destruct (get (currchar t + 1) line) as [d|]; [|reflexivity].
  change (catcode (set_currchar (currchar t + 1) t) d) with (catcode t d).
  replace (currchar t + 2) with (currchar t + 1 + 1) by lia.
  destruct (catcode t d); reflexivity.
Qed.

(** A control word is the escape character and the longest run of letters
    behind it: the pull returns them as one token of kind
    [ControlSequence], leaves the cursor on the first character that is
    no letter and sets the state to [SkippingSpaces]. *)
Theorem X6_control_word (t : Tokenizer) (ls : list string)
    (pre w rest : string) (e a : ascii) (fuel : nat) :
  lines t = LineList ls ->
  ls !! currline t = Some (pre ++ String e (String a (w ++ rest))) ->
  currchar t = String.length pre ->
  catcode t e = EscapeCharacter -> catcode t a = Letter ->
  string_forall (has_code (catcodes t) Letter) w = true ->
  starts_with (catcodes t) Letter rest = false ->
  make_token (S (S fuel)) t
  = Done (Some (mkToken (String e (String a w)) ControlSequence))
      (set_state SkippingSpaces
         (set_currchar (String.length pre + 2 + String.length w) t)).
Proof.
  intros Hl Hc Hpos He Ha Hw Hr.
  rewrite (make_token_step fuel t ls _ e Hl Hc)
    by (rewrite Hpos; apply get_app_here).
  rewrite (scan_escape _ e t He), Hpos.
  rewrite (get_app_r pre (String e (String a (w ++ rest))) 1).
  change (get 1 (String e (String a (w ++ rest)))) with (Some a).
  cbv beta iota. rewrite Ha.
  rewrite (string_drop_app_r pre (String e (String a (w ++ rest))) 2).
  change (string_drop 2 (String e (String a (w ++ rest)))) with (w ++ rest).
  rewrite (control_word_run (catcodes t) w rest _ _ Hw Hr).
  reflexivity.
Qed.

Lemma X6_witness :
  let t := fresh "\abc d" default_endlinechar in
  make_token 2 t
  = Done (Some (mkToken "\abc" ControlSequence))
      (set_state SkippingSpaces (set_currchar 4 t)).
Proof.
  intros t.
  apply (X6_control_word t [("\abc d" ++ str1 CR)%string] "" "bc"
           (" d" ++ str1 CR) "\" "a" 0); reflexivity.
Defined.

(** Behind the escape character a character that is no letter is taken as
    it stands, whatever its classification: the pull returns the two
    characters as one token of kind [ControlSequence] and consumes nothing
    more, so that an escaped comment character starts no comment, an
    escaped invalid character raises no error and an escaped end-of-line
    character does not end the line.  The state becomes [SkippingSpaces]
    behind a space and [MiddleOfLine] otherwise. *)
Theorem X7_control_symbol (t : Tokenizer) (ls : list string)
    (pre rest : string) (e d : ascii) (fuel : nat) :
  lines t = LineList ls ->
  ls !! currline t = Some (pre ++ String e (String d rest)) ->
  currchar t = String.length pre ->
  catcode t e = EscapeCharacter -> catcode t d <> Letter ->
  make_token (S (S fuel)) t
  = Done (Some (mkToken (String e (str1 d)) ControlSequence))
      (set_state (if decide (catcode t d = Space) then SkippingSpaces
                  else MiddleOfLine)
         (set_currchar (String.length pre + 2) t)).
Proof.
  intros Hl Hc Hpos He Hd.
  rewrite (make_token_step fuel t ls _ e Hl Hc)
    by (rewrite Hpos; apply get_app_here).
  rewrite (scan_escape _ e t He), Hpos.
  rewrite (get_app_r pre (String e (String d rest)) 1).
  change (get 1 (String e (String d rest))) with (Some d).
  cbv beta iota.
  destruct (decide (catcode t d = Space)) as [Hs|Hs].
  - rewrite Hs. reflexivity.
  - destruct (catcode t d); try reflexivity; contradiction.
Qed.

Lemma X7_witness :
  let t := fresh "\%a" default_endlinechar in
  make_token 2 t
  = Done (Some (mkToken "\%" ControlSequence))
      (set_state MiddleOfLine (set_currchar 2 t)).
Proof.
  intros t.
  apply (X7_control_symbol t [("\%a" ++ str1 CR)%string] ""
           ("a" ++ str1 CR) "\" "%" 0); try reflexivity.
  discriminate.
Defined.

(** An escape character that is the last character of its line makes the
    pull raise [IndexError], with the cursor moved behind the line; from
    there on every pull runs for ever. *)
Theorem X8_escape_at_line_end (t : Tokenizer) (ls : list string)
    (pre : string) (e : ascii) (fuel : nat) :
  lines t = LineList ls ->
  ls !! currline t = Some (pre ++ str1 e) ->
  currchar t = String.length pre ->
  catcode t e = EscapeCharacter ->
  let t' := set_currchar (String.length pre + 1) t in
  make_token (S (S fuel)) t = Raised IndexError t' /\
  forall fuel', make_token fuel' t' = OutOfFuel.
Proof.
  intros Hl Hc Hpos He t'. split.
  - rewrite (make_token_step fuel t ls _ e Hl Hc)
      by (rewrite Hpos; apply get_app_here).
    rewrite (scan_escape _ e t He), Hpos.
    rewrite (get_app_r pre (str1 e) 1). reflexivity.
  - apply (make_token_spins t' ls (pre ++ str1 e)); [exact Hl | exact Hc |].
    unfold t'. cbn [currchar set_currchar].
    rewrite (get_app_r pre (str1 e) 1). reflexivity.
Qed.

Lemma X8_witness :
  let t := fresh "a\" PyNone in
  let t' := set_currchar 2 (set_state MiddleOfLine t) in
  make_token 2 (set_currchar 1 (set_state MiddleOfLine t))
  = Raised IndexError t' /\
  forall fuel', make_token fuel' t' = OutOfFuel.
Proof.
  intros t t'.
  apply (X8_escape_at_line_end
           (set_currchar 1 (set_state MiddleOfLine t)) ["a\"] "a" "\" 0);
    reflexivity.
Defined.

(** ** The superscript notation, in full *)

Lemma slice_gets (line : string) (p : nat) :
  get p line = get 0 (slice p 3 line) /\
  get (p + 1) line = get 1 (slice p 3 line) /\
  get (p + 2) line = get 2 (slice p 3 line) /\
  get 3 (slice p 3 line) = None.
Proof.
  unfold slice. repeat split.
  - rewrite substring_correct1 by lia. reflexivity.
  - rewrite substring_correct1 by lia. f_equal. lia.
  - rewrite substring_correct1 by lia. f_equal. lia.
  - apply substring_correct2. lia.
Qed.

(** The superscript branch of the loop body, with the branch that can
    never be taken left out. *)
Lemma scan_superscript_cases (line : string) (c : ascii) (t : Tokenizer) :
  catcode t c = Superscript ->
  scan_char line c t =
    if hex_form_at (catcodes t) line (currchar t + 1) then
      let x := chr (hex_value_at line (currchar t + 2)) in
      Return (mkToken (str1 x) (catcode t x))
        (set_state MiddleOfLine (set_currchar (currchar t + 4) t))
    else
      Return (mkToken (str1 c) Superscript)
        (set_state MiddleOfLine (set_currchar (currchar t + 1) t)).
Proof.
  intros Hc. unfold scan_char. rewrite Hc. cbn zeta.
  change (currchar (set_state MiddleOfLine (set_currchar (currchar t + 1) t)))
    with (currchar t + 1).
  unfold hex_form_at, hex_value_at.
  destruct (slice_gets line (currchar t + 1)) as (G0 & G1 & G2 & G3).
  replace (currchar t + 2 + 1) with (currchar t + 1 + 2) by lia.
  replace (currchar t + 2) with (currchar t + 1 + 1) by lia.
  rewrite G0, G1, G2.
  destruct (slice (currchar t + 1) 3 line) as [|c2 [|h1 [|h2 tl]]];
    try reflexivity.
  - (* two characters of lookahead *)
    simpl. destruct (bool_decide _); reflexivity.
  - (* three characters of lookahead *)
    assert (tl = EmptyString) as ->.
    { destruct tl; [reflexivity | discriminate G3]. }
    change (catcode (set_state MiddleOfLine
                       (set_currchar (currchar t + 1) t)) c2)
      with (catcode t c2).
    unfold has_code, catcode.
    simpl get. cbv beta iota.
    change (1 <? String.length (String c2 (String h1 (String h2 ""))))
      with true.
    destruct (bool_decide (catcode_of (catcodes t) c2 = Superscript));
      [|reflexivity].
    unfold re_match_hex2.
    destruct (is_lower_hex h1) eqn:Hh1; [|reflexivity].
    destruct (is_lower_hex h2) eqn:Hh2; [|reflexivity].
    cbv beta iota delta [andb].
    fold (str1 h2). rewrite int16_pair.
    pose proof (hex_digit_value_bound h1 Hh1).
    pose proof (hex_digit_value_bound h2 Hh2).
    destruct (Nat.ltb_spec (16 * hex_digit_value h1 + hex_digit_value h2) 256);
      [|lia].
    unfold set_currchar, set_state, catcode; simpl.
    replace (currchar t + 1 + 3) with (currchar t + 4) by lia.
    reflexivity.
Qed.

(** A [Superscript]-classified character is handled in one of two ways
    only.  When a second [Superscript]-classified character and two
    lower-case hexadecimal digits follow, the pull consumes the four
    characters and returns the character of that hexadecimal value, kinded
    by its classification.  In every other case it consumes the one
    character and returns it with kind [Superscript]: no pull ever takes
    the one-character form of the notation.  The state becomes
    [MiddleOfLine]. *)
Theorem X9_superscript_one_or_four (t : Tokenizer) (ls : list string)
    (line : string) (c : ascii) (fuel : nat) :
  lines t = LineList ls -> ls !! currline t = Some line ->
  get (currchar t) line = Some c -> catcode t c = Superscript ->
  make_token (S (S fuel)) t =
    if hex_form_at (catcodes t) line (currchar t + 1) then
      let x := chr (hex_value_at line (currchar t + 2)) in
      Done (Some (mkToken (str1 x) (catcode t x)))
        (set_state MiddleOfLine (set_currchar (currchar t + 4) t))
    else
      Done (Some (mkToken (str1 c) Superscript))
        (set_state MiddleOfLine (set_currchar (currchar t + 1) t)).
Proof.
  intros Hl Hc Hg Hk.
  rewrite (make_token_step fuel t ls line c Hl Hc Hg).
  rewrite (scan_superscript_cases line c t Hk).
  destruct (hex_form_at _ _ _); reflexivity.
Qed.

Lemma X9_witness :
  let t := fresh "^^M^^5e" default_endlinechar in
  make_token 2 t
  = Done (Some (mkToken "^" Superscript))
      (set_state MiddleOfLine (set_currchar 1 t)) /\
  make_token 2 (set_currchar 3 t)
  = Done (Some (mkToken "^" Superscript))
      (set_state MiddleOfLine (set_currchar 7 t)).
Proof.
  intros t. split.
  - apply (X9_superscript_one_or_four t [("^^M^^5e" ++ str1 CR)%string]
             ("^^M^^5e" ++ str1 CR) "^" 0); reflexivity.
  - apply (X9_superscript_one_or_four (set_currchar 3 t)
             [("^^M^^5e" ++ str1 CR)%string]
             ("^^M^^5e" ++ str1 CR) "^" 0); reflexivity.
Defined.

(** ** More fuel changes no result *)

Lemma inner_loop_mono (f f' : nat) (line : string) (t : Tokenizer) :
  f <= f' -> inner_loop f line t <> LOutOfFuel ->
  inner_loop f' line t = inner_loop f line t.
Proof.
  revert f' t. induction f as [|f IH]; intros f' t Hle; simpl.
  - destruct (get (currchar t) line) eqn:Hg; [congruence|].
    intros _. destruct f'; simpl; rewrite Hg; reflexivity.
  - destruct f' as [|f']; [lia|]. simpl.
    destruct (get (currchar t) line) as [c|]; [|reflexivity].
    destruct (scan_char line c t) as [tok t1|t1|t1|e t1]; try reflexivity.
    intros H. apply IH; [lia | exact H].
Qed.

Lemma make_token_mono (f f' : nat) (t : Tokenizer) :
  f <= f' -> make_token f t <> OutOfFuel ->
  make_token f' t = make_token f t.
Proof.
  revert f' t. induction f as [|f IH]; intros f' t Hle; simpl.
  - destruct (lines t) as [|ls] eqn:Hl.
    + intros _. destruct f'; simpl; rewrite Hl; reflexivity.
    + destruct (ls !! currline t) eqn:Hc; [congruence|].
      intros _. destruct f'; simpl; rewrite Hl, Hc; reflexivity.
  - destruct f' as [|f']; [lia|]. simpl.
    destruct (lines t) as [|ls]; [reflexivity|].
    destruct (ls !! currline t) as [line|]; [|reflexivity].
    destruct (inner_loop f line t) as [tok t1|t1|e t1|] eqn:Hi;
      try congruence;
      rewrite (inner_loop_mono f f' line t) by (try lia; congruence);
      rewrite Hi; try reflexivity.
    intros H. apply IH; [lia | exact H].
Qed.

(** ** Characters that leave no trace *)

Lemma scan_skipped (line : string) (c : ascii) (t : Tokenizer) :
  skipped (catcodes t) (state t) c = true ->
  scan_char line c t = Continue (set_currchar (currchar t + 1) t).
Proof.
  unfold skipped, has_code. fold (catcode t c). intros H.
  apply orb_true_iff in H. destruct H as [H|H].
  - apply bool_decide_eq_true in H. unfold scan_char. rewrite H. reflexivity.
  - apply andb_true_iff in H. destruct H as [H Hs].
    apply bool_decide_eq_true in H. apply negb_true_iff in Hs.
    apply bool_decide_eq_false in Hs.
    unfold scan_char. rewrite H. cbn zeta.
    change (state (set_currchar (currchar t + 1) t)) with (state t).
    destruct (state t); try reflexivity. contradiction.
Qed.

Lemma inner_loop_skips (skip : string) :
  forall (pre rest : string) (t : Tokenizer) (fuel : nat),
    currchar t = String.length pre ->
    string_forall (skipped (catcodes t) (state t)) skip = true ->
    inner_loop (String.length skip + fuel) (pre ++ skip ++ rest) t
    = inner_loop fuel (pre ++ skip ++ rest)
        (set_currchar (String.length pre + String.length skip) t).
Proof.
  induction skip as [|c skip IH]; intros pre rest t fuel Hpos Hs.
  - simpl String.length. rewrite Nat.add_0_r, <- Hpos.
    destruct t; reflexivity.
  - simpl in Hs. apply andb_true_iff in Hs. destruct Hs as [Hc Hs].
    simpl String.length.
    change (S (String.length skip) + fuel)
      with (S (String.length skip + fuel)).
    cbn [inner_loop]. rewrite Hpos, app_cons, get_app_here.
    rewrite <- Hpos, <- app_cons, (scan_skipped _ c t Hc).
    replace (pre ++ String c skip ++ rest)
      with ((pre ++ str1 c) ++ skip ++ rest)
      by (rewrite app_assoc_str; reflexivity).
    rewrite (IH (pre ++ str1 c) rest (set_currchar (currchar t + 1) t) fuel).
    + rewrite length_app. simpl String.length.
      unfold set_currchar; simpl. rewrite ?Hpos.
      replace (String.length pre + 1 + String.length skip)
        with (String.length pre + S (String.length skip)) by lia.
      reflexivity.
    + rewrite length_app, Hpos. reflexivity.
    + exact Hs.
Qed.

Lemma make_token_skips (t : Tokenizer) (ls : list string)
    (pre skip rest : string) (fuel : nat) :
  lines t = LineList ls ->
  ls !! currline t = Some (pre ++ skip ++ rest) ->
  currchar t = String.length pre ->
  string_forall (skipped (catcodes t) (state t)) skip = true ->
  let t' := set_currchar (String.length pre + String.length skip) t in
  make_token fuel t' <> OutOfFuel ->
  make_token (String.length skip + fuel) t = make_token fuel t'.
Proof.
  intros Hl Hc Hpos Hs t' Hr.
  destruct fuel as [|fuel].
  { exfalso. apply Hr. simpl. unfold t'. cbn [lines currline set_currchar].
    rewrite Hl, Hc. reflexivity. }
  rewrite Nat.add_succ_r. simpl make_token at 1. rewrite Hl, Hc.
  rewrite (inner_loop_skips skip pre rest t fuel Hpos Hs). fold t'.
  simpl in Hr. unfold t' in Hr. cbn [lines currline set_currchar] in Hr.
  rewrite Hl, Hc in Hr. fold t' in Hr.
  simpl make_token at 2. unfold t' at 2. cbn [lines currline set_currchar].
  rewrite Hl, Hc. fold t'.
  destruct (inner_loop fuel (pre ++ skip ++ rest) t') as [tok t1|t1|e t1|];
    try reflexivity.
  apply make_token_mono; [lia | exact Hr].
Qed.

(** [Ignored]-classified characters, and [Space]-classified ones met in
    state [NewLine] or [SkippingSpaces], leave no trace: a pull that
    starts on a run of them gives what the pull that starts behind the
    run gives, token, object and error alike. *)
Theorem X10_skipped_characters (t : Tokenizer) (ls : list string)
    (pre skip rest : string) (fuel : nat) :
  lines t = LineList ls ->
  ls !! currline t = Some (pre ++ skip ++ rest) ->
  currchar t = String.length pre ->
  string_forall (skipped (catcodes t) (state t)) skip = true ->
  let t' := set_currchar (String.length pre + String.length skip) t in
  make_token fuel t' <> OutOfFuel ->
  make_token (String.length skip + fuel) t = make_token fuel t'.
Proof. apply make_token_skips. Qed.

Lemma X10_witness :
  let t := fresh ("a" ++ str1 NUL ++ "  b") default_endlinechar in
  make_token (3 + 2) (set_state SkippingSpaces (set_currchar 1 t))
  = Done (Some (mkToken "b" Letter))
      (set_state MiddleOfLine (set_currchar 5 t)).
Proof.
  intros t.
  refine (eq_trans
            (X10_skipped_characters
               (set_state SkippingSpaces (set_currchar 1 t))
               [("a" ++ str1 NUL ++ "  b" ++ str1 CR)%string]
               "a" (str1 NUL ++ "  ") ("b" ++ str1 CR) 2 _ _ _ _ _) _);
    try reflexivity.
  discriminate.
Defined.

(** ** Every token costs a character *)

Lemma iter_yield (n fuel : nat) (t t' : Tokenizer) (tok : Token) :
  next_token t = None -> make_token fuel t = Done (Some tok) t' ->
  iter (S n) fuel t
  = (Some tok :: fst (iter n fuel t'), snd (iter n fuel t')).
Proof.
  intros Hn Hm. rewrite iter_S. unfold has_token, peek.
  rewrite Hn, Hm. cbn [and_then].
  rewrite bool_decide_eq_true_2 by discriminate.
  unfold get_token. cbn [next_token set_next_token].
  pose proof (make_token_keeps_slot fuel t t' (Some tok) Hm) as Hs.
  rewrite Hn in Hs.
  replace (set_next_token None (set_next_token (Some tok) t')) with t'
    by (rewrite <- Hs at 1; destruct t'; reflexivity).
  destruct (iter n fuel t'); reflexivity.
Qed.

Lemma iter_done (n fuel : nat) (t t' : Tokenizer) :
  next_token t = None -> make_token fuel t = Done None t' ->
  iter (S n) fuel t = ([], Finished t').
Proof.
  intros Hn Hm. rewrite iter_S. unfold has_token, peek.
  rewrite Hn, Hm. cbn [and_then].
  pose proof (make_token_keeps_slot fuel t t' None Hm) as Hs.
  rewrite Hn in Hs.
  replace (set_next_token None t') with t'
    by (rewrite <- Hs; symmetry; apply set_next_token_same).
  reflexivity.
Qed.

Lemma length_string_drop (k : nat) (s : string) :
  String.length (string_drop k s) = String.length s - k.
Proof.
  revert s. induction k as [|k IH]; intros [|c s]; simpl; auto; lia.
Qed.

Lemma control_word_pos (m : gmap ascii CategoryCode) (rest token : string)
    (pos : nat) :
  pos <= snd (control_word m rest token pos) <= pos + String.length rest.
Proof.
  revert token pos. induction rest as [|c rest IH]; intros token pos; simpl.
  - lia.
  - destruct (catcode_of m c); simpl; try lia.
    specialize (IH (token ++ str1 c) (S pos)). lia.
Qed.

Lemma hex_form_at_length (m : gmap ascii CategoryCode) (line : string) (p : nat) :
  hex_form_at m line p = true -> p + 2 < String.length line.
Proof.
  unfold hex_form_at.
  destruct (get p line); [|discriminate].
  destruct (get (p + 1) line); [|discriminate].
  destruct (get (p + 2) line) eqn:H; [|discriminate].
  intros _. eapply get_Some_length; eauto.
Qed.

Lemma scan_moves (line : string) (c : ascii) (t : Tokenizer) :
  get (currchar t) line = Some c -> step_moves line t (scan_char line c t).
Proof.
  intros Hg. pose proof (get_Some_length _ _ _ Hg) as Hlt.
  destruct (catcode t c) eqn:Hc.
  - (* escape *)
    rewrite (scan_escape line c t Hc).
    destruct (get (currchar t + 1) line) as [d|] eqn:Hd;
      [|simpl; lia].
    pose proof (get_Some_length _ _ _ Hd) as Hlt'.
    destruct (catcode t d); try (simpl; left; split; [reflexivity | lia]).
    pose proof (control_word_pos (catcodes t)
                  (string_drop (currchar t + 2) line)
                  (String c (str1 d)) (currchar t + 2)) as Hp.
    rewrite length_string_drop in Hp.
    destruct (control_word _ _ _ _) as [token pos]. simpl in *.
    left. split; [reflexivity | lia].
  - rewrite (scan_verbatim line c t) by (rewrite Hc; reflexivity).
    simpl. left. split; [reflexivity | lia].
  - rewrite (scan_verbatim line c t) by (rewrite Hc; reflexivity).
    simpl. left. split; [reflexivity | lia].
  - rewrite (scan_verbatim line c t) by (rewrite Hc; reflexivity).
    simpl. left. split; [reflexivity | lia].
  - rewrite (scan_verbatim line c t) by (rewrite Hc; reflexivity).
    simpl. left. split; [reflexivity | lia].
  - (* end of line *)
    rewrite (scan_end_of_line line c t Hc).
    destruct (state t); simpl; try right; split; reflexivity.
  - (* parameter *)
    rewrite (scan_parameter line c t Hc).
    destruct (get (currchar t + 1) line) as [d|] eqn:Hd.
    + pose proof (get_Some_length _ _ _ Hd) as Hlt'.
      destruct (isdigit d); [simpl; left; split; [reflexivity | lia]|].
      destruct (decide _); simpl; left; (split; [reflexivity | lia]).
    + simpl; left; split; [reflexivity | lia].
  - (* superscript *)
    rewrite (scan_superscript_cases line c t Hc).
    destruct (hex_form_at _ _ _) eqn:Hh.
    + apply hex_form_at_length in Hh.
      simpl. left. split; [reflexivity | lia].
    + simpl. left. split; [reflexivity | lia].
  - rewrite (scan_verbatim line c t) by (rewrite Hc; reflexivity).
    simpl. left. split; [reflexivity | lia].
  - (* ignored *)
    unfold scan_char. rewrite Hc. simpl. split; reflexivity.
  - (* space *)
    unfold scan_char. rewrite Hc. cbn zeta.
    change (state (set_currchar (currchar t + 1) t)) with (state t).
    destruct (state t); simpl; try (split; reflexivity).
    left. split; [reflexivity | lia].
  - rewrite (scan_verbatim line c t) by (rewrite Hc; reflexivity).
    simpl. left. split; [reflexivity | lia].
  - rewrite (scan_verbatim line c t) by (rewrite Hc; reflexivity).
    simpl. left. split; [reflexivity | lia].
  - rewrite (scan_verbatim line c t) by (rewrite Hc; reflexivity).
    simpl. left. split; [reflexivity | lia].
  - (* comment *)
    rewrite (scan_comment line c t Hc). simpl. split; reflexivity.
  - (* invalid *)
    rewrite (scan_invalid line c t Hc). simpl. split; reflexivity.
  - rewrite (scan_verbatim line c t) by (rewrite Hc; reflexivity).
    simpl. left. split; [reflexivity | lia].
  - rewrite (scan_verbatim line c t) by (rewrite Hc; reflexivity).
    simpl. left. split; [reflexivity | lia].
Qed.

Lemma remaining_here (t : Tokenizer) (ls : list string) (line : string) :
  lines t = LineList ls -> ls !! currline t = Some line ->
  remaining t
  = (String.length line - currchar t) + sum_lengths (drop (S (currline t)) ls).
Proof.
  intros Hl Hc. unfold remaining. rewrite Hl.
  rewrite (drop_S ls line (currline t) Hc). reflexivity.
Qed.

Lemma remaining_line_start (t : Tokenizer) (ls : list string) :
  lines t = LineList ls -> currchar t = 0 ->
  remaining t = sum_lengths (drop (currline t) ls).
Proof.
  intros Hl Hp. unfold remaining. rewrite Hl, Hp.
  destruct (drop (currline t) ls); simpl; lia.
Qed.

Lemma not_back_refl (t : Tokenizer) : not_back t t.
Proof. unfold not_back. lia. Qed.

Lemma not_back_advanced (t1 t2 t3 : Tokenizer) :
  not_back t1 t2 -> advanced t2 t3 -> advanced t1 t3.
Proof. unfold not_back, advanced. lia. Qed.

Lemma not_back_trans (t1 t2 t3 : Tokenizer) :
  not_back t1 t2 -> not_back t2 t3 -> not_back t1 t3.
Proof. unfold not_back. lia. Qed.

Lemma advanced_not_back (t t' : Tokenizer) : advanced t t' -> not_back t t'.
Proof. unfold not_back, advanced. lia. Qed.

(** One pass through the loop body, read on the number of characters
    left. *)
Lemma scan_advances (t : Tokenizer) (ls : list string) (line : string)
    (c : ascii) :
  lines t = LineList ls -> ls !! currline t = Some line ->
  get (currchar t) line = Some c ->
  match scan_char line c t with
  | Return _ t' | Break t' | Continue t' => advanced t t'
  | Raise _ t' => not_back t t'
  end.
Proof.
  intros Hl Hc Hg.
  pose proof (scan_moves line c t Hg) as Hm.
  pose proof (scan_char_config line c t) as Hcfg.
  pose proof (get_Some_length _ _ _ Hg) as Hlt.
  pose proof (remaining_here t ls line Hl Hc) as Hr.
  assert (Hnext : forall t', lines t' = lines t ->
                    currline t' = currline t + 1 -> currchar t' = 0 ->
                    advanced t t').
  { intros t' Hl' Hcl Hcc. unfold advanced. split; [lia|].
    rewrite Hl in Hl'.
    rewrite (remaining_line_start t' ls Hl' Hcc), Hcl, Hr.
    replace (currline t + 1) with (S (currline t)) by lia. lia. }
  assert (Hsame : forall t', lines t' = lines t ->
                    currline t' = currline t ->
                    currchar t < currchar t' <= String.length line ->
                    advanced t t').
  { intros t' Hl' Hcl Hcc. unfold advanced. split; [lia|].
    rewrite Hl in Hl'.
    rewrite (remaining_here t' ls line Hl') by (rewrite Hcl; exact Hc).
    rewrite Hcl, Hr. lia. }
  destruct (scan_char line c t) as [tok t'|t'|t'|e t']; simpl in *;
    destruct Hcfg as (_ & _ & _ & _ & Hl').
  - destruct Hm as [[H1 H2]|[H1 H2]]; auto.
  - destruct Hm as [H1 H2]; auto.
  - destruct Hm as [H1 H2]. apply Hsame; auto. lia.
  - destruct Hm as [H1 H2]. apply advanced_not_back, Hsame; auto. lia.
Qed.

Lemma inner_loop_advances (fuel : nat) (ls : list string) (line : string) :
  forall t,
    lines t = LineList ls -> ls !! currline t = Some line ->
    match inner_loop fuel line t with
    | LReturn _ t' => advanced t t'
    | LExit t' | LRaise _ t' => not_back t t'
    | LOutOfFuel => True
    end.
Proof.
  induction fuel as [|fuel IH]; intros t Hl Hc; simpl.
  - destruct (get (currchar t) line); [exact I | apply not_back_refl].
  - destruct (get (currchar t) line) as [c|] eqn:Hg; [|apply not_back_refl].
    pose proof (scan_advances t ls line c Hl Hc Hg) as Ha.
    pose proof (scan_moves line c t Hg) as Hm.
    pose proof (scan_char_config line c t) as Hcfg.
    destruct (scan_char line c t) as [tok t1|t1|t1|e t1]; simpl in *;
      auto using advanced_not_back.
    destruct Hcfg as (_ & _ & _ & _ & Hl1). destruct Hm as [Hcl _].
    specialize (IH t1).
    rewrite Hl1, Hcl in IH. specialize (IH Hl Hc).
    destruct (inner_loop fuel line t1); auto.
    + eapply not_back_advanced; [apply advanced_not_back; exact Ha | exact IH].
    + eapply not_back_trans; [apply advanced_not_back; exact Ha | exact IH].
    + eapply not_back_trans; [apply advanced_not_back; exact Ha | exact IH].
Qed.

Lemma make_token_advances (fuel : nat) :
  forall t,
    match make_token fuel t with
    | Done (Some _) t' => advanced t t'
    | Done None t' | Raised _ t' => not_back t t'
    | OutOfFuel => True
    end.
Proof.
  induction fuel as [|fuel IH]; intros t; simpl.
  - destruct (lines t) as [|ls]; [apply not_back_refl|].
    destruct (ls !! currline t); [exact I | apply not_back_refl].
  - destruct (lines t) as [|ls] eqn:Hl; [apply not_back_refl|].
    destruct (ls !! currline t) as [line|] eqn:Hc; [|apply not_back_refl].
    pose proof (inner_loop_advances fuel ls line t Hl Hc) as Hi.
    destruct (inner_loop fuel line t) as [tok t1|t1|e t1|]; auto.
    specialize (IH t1).
    destruct (make_token fuel t1) as [[tok|] t2|e t2|]; auto.
    + eapply not_back_advanced; eauto.
    + eapply not_back_trans; eauto.
    + eapply not_back_trans; eauto.
Qed.

(** Every token costs at least one character: a pull that returns a token
    leaves the cursor strictly behind where it was, with fewer characters
    left between the cursor and the end of the last line; a pull that
    returns [None] or raises never moves the cursor backwards. *)
Theorem X11_every_token_costs_a_character (fuel : nat) (t t' : Tokenizer) :
  (forall tok,
      make_token fuel t = Done (Some tok) t' ->
      (currline t < currline t' \/
       (currline t' = currline t /\ currchar t < currchar t')) /\
      remaining t' < remaining t) /\
  (make_token fuel t = Done None t' \/
   (exists e, make_token fuel t = Raised e t') ->
   (currline t < currline t' \/
    (currline t' = currline t /\ currchar t <= currchar t')) /\
   remaining t' <= remaining t).
Proof.
  pose proof (make_token_advances fuel t) as H.
  split.
  - intros tok Hm. rewrite Hm in H. exact H.
  - intros [Hm|[e Hm]]; rewrite Hm in H; exact H.
Qed.

Lemma X11_witness :
  let t := fresh "\abc d" default_endlinechar in
  let t' := set_state SkippingSpaces (set_currchar 4 t) in
  (currline t < currline t' \/
   (currline t' = currline t /\ currchar t < currchar t')) /\
  remaining t' < remaining t.
Proof.
  intros t t'.
  destruct (X11_every_token_costs_a_character 2 t t') as [H _].
  apply (H (mkToken "\abc" ControlSequence)). reflexivity.
Defined.

(** ** No more tokens than characters *)

Lemma iter_length (n fuel : nat) :
  forall t,
    length (fst (iter n fuel t))
    <= remaining t + slot_size t.
Proof.
  induction n as [|n IH]; intros t; [simpl; lia|].
  unfold slot_size in *.
  destruct (next_token t) as [tk|] eqn:Hn.
  - rewrite iter_S. unfold has_token, peek. rewrite Hn. cbn [and_then].
    rewrite bool_decide_eq_true_2 by discriminate.
    unfold get_token. rewrite Hn.
    specialize (IH (set_next_token None t)).
    destruct (iter n fuel (set_next_token None t)) as [toks e].
    simpl in *.
    change (remaining (set_next_token None t)) with (remaining t) in IH.
    lia.
  - destruct (make_token fuel t) as [[tok|] t'|e t'|] eqn:Hm.
    + rewrite (iter_yield n fuel t t' tok Hn Hm). simpl.
      specialize (IH t').
      rewrite (make_token_keeps_slot fuel t t' (Some tok) Hm), Hn in IH.
      pose proof (make_token_advances fuel t) as Ha. rewrite Hm in Ha.
      destruct Ha as [_ Ha]. lia.
    + rewrite (iter_done n fuel t t' Hn Hm). simpl. lia.
    + rewrite iter_S. unfold has_token, peek. rewrite Hn, Hm. simpl. lia.
    + rewrite iter_S. unfold has_token, peek. rewrite Hn, Hm. simpl. lia.
Qed.

(** The iterator never yields more values than there are characters
    between the cursor and the end of the last line, one more when the
    lookahead slot is full; a tokenizer built from a text never yields
    more tokens than its normalised lines have characters. *)
Theorem X12_no_more_tokens_than_characters (n fuel : nat) :
  (forall t,
      length (fst (iter n fuel t))
      <= remaining t + slot_size t) /\
  (forall txt elc ls,
      lines (fresh txt elc) = LineList ls ->
      length (fst (tokenize n fuel txt elc)) <= sum_lengths ls).
Proof.
  split; [apply iter_length|].
  intros txt elc ls Hl. unfold tokenize. rewrite init_fresh.
  pose proof (iter_length n fuel (fresh txt elc)) as H.
  unfold slot_size in H.
  rewrite (remaining_line_start (fresh txt elc) ls Hl eq_refl) in H.
  change (next_token (fresh txt elc)) with (@None Token) in H.
  change (currline (fresh txt elc)) with 0 in H.
  rewrite drop_0 in H. lia.
Qed.

Lemma X12_witness :
  length (fst (tokenize 9 9 "\abc d" default_endlinechar)) <= 7.
Proof.
  destruct (X12_no_more_tokens_than_characters 9 9) as [_ H].
  apply (H "\abc d" default_endlinechar [("\abc d" ++ str1 CR)%string]).
  reflexivity.
Defined.

(** ** When pulling ends *)

Lemma get_string_drop (p k : nat) (line : string) :
  get k (string_drop p line) = get (p + k) line.
Proof.
  revert line. induction p as [|p IH]; intros [|c line]; simpl; auto;
    destruct k; reflexivity.
Qed.

Lemma string_drop_drop (p k : nat) (line : string) :
  string_drop k (string_drop p line) = string_drop (p + k) line.
Proof.
  revert line. induction p as [|p IH]; intros [|c line]; simpl; auto;
    destruct k; reflexivity.
Qed.

Lemma string_drop_head (p : nat) (line : string) (c : ascii) :
  get p line = Some c ->
  exists rest, string_drop p line = String c rest.
Proof.
  intros H. rewrite <- (Nat.add_0_r p), <- get_string_drop in H.
  destruct (string_drop p line) as [|a rest]; [discriminate|].
  simpl in H. injection H as ->. eauto.
Qed.

Lemma string_forall_get (P : ascii -> bool) (s : string) (i : nat) (c : ascii) :
  string_forall P s = true -> get i s = Some c -> P c = true.
Proof.
  revert i. induction s as [|a s IH]; intros i; simpl; [discriminate|].
  intros H. apply andb_true_iff in H. destruct H as [Ha Hs].
  destruct i as [|i]; [intros [= <-]; exact Ha | apply IH; exact Hs].
Qed.

Lemma not_line_end (m : gmap ascii CategoryCode) (c : ascii) :
  catcode_of m c <> EndOfLine -> catcode_of m c <> Comment ->
  line_end_ok m c = false.
Proof.
  intros H1 H2. unfold line_end_ok.
  apply has_code_false in H1. apply has_code_false in H2.
  rewrite H1, H2. reflexivity.
Qed.

Lemma digit_not_line_end (m : gmap ascii CategoryCode) (c : ascii) :
  isdigit c = true -> line_end_ok m c = false.
Proof.
  intros H. unfold line_end_ok. rewrite H, andb_false_r. reflexivity.
Qed.

Lemma hex_not_line_end (m : gmap ascii CategoryCode) (c : ascii) :
  is_lower_hex c = true -> line_end_ok m c = false.
Proof.
  intros H. unfold line_end_ok. rewrite H, andb_false_r. reflexivity.
Qed.

Lemma well_ended_tail (m : gmap ascii CategoryCode) (c : ascii) (rest : string) :
  well_ended m (String c rest) = true -> line_end_ok m c = false ->
  well_ended m rest = true.
Proof.
  destruct rest as [|d [|x r]]; simpl.
  - congruence.
  - intros H _. apply andb_true_iff in H. apply H.
  - auto.
Qed.

Lemma well_ended_after_escape (m : gmap ascii CategoryCode) (c : ascii)
    (rest : string) :
  well_ended m (String c rest) = true ->
  catcode_of m c = EscapeCharacter ->
  exists d x r, rest = String d (String x r) /\
                well_ended m (String x r) = true.
Proof.
  intros Hw Hc.
  assert (He : line_end_ok m c = false)
    by (apply not_line_end; rewrite Hc; discriminate).
  destruct rest as [|d [|x r]].
  - simpl in Hw. congruence.
  - simpl in Hw. apply andb_true_iff in Hw. destruct Hw as [Hw _].
    apply negb_true_iff, has_code_false in Hw. contradiction.
  - exists d, x, r. split; [reflexivity|].
    change (well_ended m (String c (String d (String x r))))
      with (well_ended m (String d (String x r))) in Hw.
    destruct r as [|y r]; simpl in Hw |- *.
    + apply andb_true_iff in Hw. apply Hw.
    + exact Hw.
Qed.

Lemma control_word_well_ended (m : gmap ascii CategoryCode) (s : string) :
  forall token pos,
    well_ended m s = true ->
    exists k, snd (control_word m s token pos) = pos + k /\
              well_ended m (string_drop k s) = true.
Proof.
  induction s as [|a s IH]; intros token pos Hw; [discriminate|].
  simpl control_word.
  destruct (catcode_of m a) eqn:Ha;
    try (exists 0; split; [simpl; lia | exact Hw]).
  assert (Hs : well_ended m s = true).
  { apply (well_ended_tail m a s Hw).
    apply not_line_end; rewrite Ha; discriminate. }
  destruct (IH (token ++ str1 a) (S pos) Hs) as (k & Hk & Hd).
  exists (S k). split; [rewrite Hk; lia | exact Hd].
Qed.

Lemma scan_well_ended (line : string) (c : ascii) (t : Tokenizer) :
  get (currchar t) line = Some c ->
  well_ended (catcodes t) (string_drop (currchar t) line) = true ->
  catcode t c <> Invalid ->
  step_well_ended line t (scan_char line c t).
Proof.
  intros Hg Hw Hinv.
  destruct (string_drop_head _ _ _ Hg) as [rest Hs]. rewrite Hs in Hw.
  assert (Hdrop : forall k, string_drop (currchar t + k) line
                            = string_drop k (String c rest)).
  { intros k. rewrite <- string_drop_drop, Hs. reflexivity. }
  assert (Hget : forall k, get (currchar t + k) line
                           = get k (String c rest)).
  { intros k. rewrite <- get_string_drop, Hs. reflexivity. }
  assert (Hone : line_end_ok (catcodes t) c = false ->
                 well_ended (catcodes t) (string_drop (currchar t + 1) line)
                 = true).
  { intros He. rewrite Hdrop. simpl. eapply well_ended_tail; eauto. }
  assert (Hverb : verbatim (catcode t c) = true ->
                  step_well_ended line t (scan_char line c t)).
  { intros Hv. rewrite (scan_verbatim line c t Hv). simpl. left.
    split; [reflexivity|]. apply Hone.
    unfold catcode in Hv.
    apply not_line_end; intros E; rewrite E in Hv; discriminate. }
  destruct (catcode t c) eqn:Hc; try (apply Hverb; reflexivity);
    unfold catcode in Hc.
  - (* escape *)
    rewrite (scan_escape line c t Hc).
    destruct (well_ended_after_escape _ c rest Hw Hc)
      as (d & x & r & -> & Hxr).
    rewrite (Hget 1). simpl get. rewrite (Hdrop 2). simpl string_drop.
    destruct (catcode t d);
      try (simpl; left; split; [reflexivity | rewrite (Hdrop 2); exact Hxr]).
    destruct (control_word_well_ended (catcodes t) (String x r)
                (String c (str1 d)) (currchar t + 2) Hxr) as (k & Hk & Hdk).
    destruct (control_word (catcodes t) (String x r) (String c (str1 d))
                (currchar t + 2)) as [token pos].
    simpl in Hk. subst pos. simpl. left. split; [reflexivity|].
    rewrite <- Nat.add_assoc, Hdrop. exact Hdk.
  - (* end of line *)
    rewrite (scan_end_of_line line c t Hc).
    destruct (state t); simpl; try right; split; reflexivity.
  - (* parameter *)
    assert (He : line_end_ok (catcodes t) c = false)
      by (apply not_line_end; rewrite Hc; discriminate).
    specialize (Hone He).
    rewrite (scan_parameter line c t Hc), (Hget 1). simpl get.
    rewrite (Hdrop 1) in Hone. simpl in Hone.
    destruct rest as [|d r2]; [discriminate|]. simpl get. cbv beta iota.
    destruct (isdigit d) eqn:Hd.
    + simpl. left. split; [reflexivity|]. rewrite (Hdrop 2). simpl.
      apply (well_ended_tail _ d r2 Hone), digit_not_line_end, Hd.
    + destruct (decide (catcode t d = ParameterCharacter)) as [Hp|Hp].
      * simpl. left. split; [reflexivity|]. rewrite (Hdrop 2). simpl.
        apply (well_ended_tail _ d r2 Hone), not_line_end;
          unfold catcode in Hp; rewrite Hp; discriminate.
      * simpl. left. split; [reflexivity|]. rewrite (Hdrop 1). exact Hone.
  - (* superscript *)
    assert (He : line_end_ok (catcodes t) c = false)
      by (apply not_line_end; rewrite Hc; discriminate).
    specialize (Hone He).
    rewrite (scan_superscript_cases line c t Hc).
    destruct (hex_form_at (catcodes t) line (currchar t + 1)) eqn:Hh.
    + unfold hex_form_at in Hh.
      replace (currchar t + 1 + 1) with (currchar t + 2) in Hh by lia.
      replace (currchar t + 1 + 2) with (currchar t + 3) in Hh by lia.
      rewrite (Hget 1), (Hget 2), (Hget 3) in Hh.
      rewrite (Hdrop 1) in Hone. simpl in Hone.
      destruct rest as [|c2 [|h1 [|h2 r4]]]; simpl in Hh;
        try discriminate.
      apply andb_true_iff in Hh. destruct Hh as [Hh Hh2].
      apply andb_true_iff in Hh. destruct Hh as [Hc2 Hh1].
      apply has_code_true in Hc2.
      simpl. left. split; [reflexivity|]. rewrite (Hdrop 4). simpl.
      apply (well_ended_tail _ h2 r4); [|apply hex_not_line_end, Hh2].
      apply (well_ended_tail _ h1 (String h2 r4));
        [|apply hex_not_line_end, Hh1].
      apply (well_ended_tail _ c2 (String h1 (String h2 r4)) Hone).
      apply not_line_end; rewrite Hc2; discriminate.
    + simpl. left. split; [reflexivity | exact Hone].
  - (* ignored *)
    unfold scan_char, catcode. rewrite Hc. simpl. split; [reflexivity|].
    apply Hone, not_line_end; rewrite Hc; discriminate.
  - (* space *)
    assert (He : line_end_ok (catcodes t) c = false)
      by (apply not_line_end; rewrite Hc; discriminate).
    unfold scan_char, catcode. rewrite Hc. cbn zeta.
    change (state (set_currchar (currchar t + 1) t)) with (state t).
    destruct (state t); simpl; try left; (split; [reflexivity | auto]).
  - (* comment *)
    rewrite (scan_comment line c t Hc). simpl. split; reflexivity.
  - (* invalid *)
    contradiction.
Qed.

Lemma well_ended_get (m : gmap ascii CategoryCode) (line : string) (p : nat) :
  well_ended m (string_drop p line) = true ->
  (exists c, get p line = Some c) /\ p < String.length line.
Proof.
  intros H.
  destruct (string_drop p line) as [|c rest] eqn:Hs; [discriminate|].
  assert (Hg : get p line = Some c).
  { rewrite <- (Nat.add_0_r p), <- get_string_drop, Hs. reflexivity. }
  split; [eauto | eapply get_Some_length; eauto].
Qed.

Lemma inner_loop_well_ended (fuel : nat) (line : string) :
  forall t,
    well_ended (catcodes t) (string_drop (currchar t) line) = true ->
    no_invalid (catcodes t) line = true ->
    String.length line - currchar t <= fuel ->
    match inner_loop fuel line t with
    | LReturn _ t' =>
        (currline t' = currline t /\
         well_ended (catcodes t) (string_drop (currchar t') line) = true) \/
        (currline t' = currline t + 1 /\ currchar t' = 0)
    | LExit t' => currline t' = currline t + 1 /\ currchar t' = 0
    | LRaise _ _ | LOutOfFuel => False
    end.
Proof.
  induction fuel as [|fuel IH]; intros t Hw Hn Hf;
    destruct (well_ended_get _ _ _ Hw) as [[c Hg] Hlt]; [lia|].
  simpl. rewrite Hg.
  assert (Hinv : catcode t c <> Invalid).
  { pose proof (string_forall_get _ _ _ _ Hn Hg) as H.
    apply negb_true_iff, has_code_false in H. exact H. }
  pose proof (scan_well_ended line c t Hg Hw Hinv) as Hs.
  pose proof (scan_char_config line c t) as Hcfg.
  destruct (scan_char line c t) as [tok t1|t1|t1|e t1] eqn:Hsc;
    simpl in Hs; auto.
  destruct Hs as [Hcl Hw1]. destruct Hcfg as (Hcat & _).
  apply scan_continue in Hsc as Ht1.
  specialize (IH t1). rewrite Hcat, Hcl in IH.
  assert (Hp : currchar t1 = currchar t + 1) by (rewrite Ht1; reflexivity).
  rewrite Hp in IH. rewrite Hp in Hw1.
  specialize (IH Hw1 Hn ltac:(lia)).
  destruct (inner_loop fuel line t1); auto.
Qed.

Lemma sum_lengths_lookup (ls : list string) (i : nat) (line : string) :
  ls !! i = Some line -> String.length line <= sum_lengths ls.
Proof.
  revert i. induction ls as [|l ls IH]; intros [|i]; simpl; try discriminate.
  - intros [= ->]. lia.
  - intros H. apply IH in H. lia.
Qed.

Lemma sum_lengths_drop (ls : list string) (i : nat) :
  sum_lengths (drop i ls) <= sum_lengths ls.
Proof.
  revert i. induction ls as [|l ls IH]; intros [|i]; simpl; try lia.
  specialize (IH i). lia.
Qed.

Lemma scannable_lookup (m : gmap ascii CategoryCode) (ls : list string)
    (i : nat) (line : string) :
  scannable m ls = true -> ls !! i = Some line ->
  well_ended m line = true /\ no_invalid m line = true.
Proof.
  unfold scannable. revert i.
  induction ls as [|l ls IH]; intros [|i]; simpl; try discriminate.
  - intros H [= ->]. apply andb_true_iff in H. destruct H as [H _].
    apply andb_true_iff in H. exact H.
  - intros H. apply andb_true_iff in H. destruct H as [_ H]. apply IH, H.
Qed.

Lemma placed_line_start (ls : list string) (t : Tokenizer) :
  lines t = LineList ls -> scannable (catcodes t) ls = true ->
  currchar t = 0 -> placed ls t.
Proof.
  intros Hl Hs Hp. split; [exact Hl|].
  destruct (ls !! currline t) as [line|] eqn:Hc; [|exact I].
  rewrite Hp. simpl. eapply scannable_lookup; eauto.
Qed.

Lemma make_token_well_ended (ls : list string) (k : nat) :
  forall fuel t,
    placed ls t -> scannable (catcodes t) ls = true ->
    length ls - currline t <= k -> k + sum_lengths ls < fuel ->
    exists r t', make_token fuel t = Done r t' /\ placed ls t'.
Proof.
  induction k as [|k IH]; intros fuel t [Hl Hp] Hs Hk Hf.
  - exists None, t. split; [|split; assumption].
    apply (make_token_exhausted fuel t ls Hl).
    apply lookup_ge_None_2. lia.
  - destruct (ls !! currline t) as [line|] eqn:Hc.
    2:{ exists None, t. split; [|split; [assumption | rewrite Hc; exact I]].
        apply (make_token_exhausted fuel t ls Hl Hc). }
    destruct fuel as [|fuel]; [lia|].
    simpl. rewrite Hl, Hc.
    destruct (scannable_lookup _ _ _ _ Hs Hc) as [_ Hni].
    pose proof (sum_lengths_lookup ls _ line Hc) as Hlen.
    pose proof (inner_loop_well_ended fuel line t Hp Hni ltac:(lia)) as Hi.
    pose proof (inner_loop_config fuel line t) as Hcfg.
    assert (Hnext : forall t1, same_config t t1 ->
                      currline t1 = currline t + 1 -> currchar t1 = 0 ->
                      placed ls t1 /\ scannable (catcodes t1) ls = true).
    { intros t1 (Hcat & _ & _ & _ & Hl1) _ Hp1.
      rewrite Hcat. split; [|exact Hs].
      apply placed_line_start; [congruence | rewrite Hcat; exact Hs | exact Hp1]. }
    destruct (inner_loop fuel line t) as [tok t1|t1|e t1|]; try contradiction.
    + exists (Some tok), t1. split; [reflexivity|].
      destruct Hi as [[Hcl Hw]|[Hcl Hp1]].
      * destruct Hcfg as (Hcat & _ & _ & _ & Hl1).
        split; [congruence|]. rewrite Hcl, Hc, Hcat. exact Hw.
      * apply (Hnext t1 Hcfg Hcl Hp1).
    + destruct Hi as [Hcl Hp1].
      destruct (Hnext t1 Hcfg Hcl Hp1) as [Hpl Hs1].
      apply (IH fuel t1 Hpl Hs1); lia.
Qed.

Lemma iter_finishes (ls : list string) (fuel : nat) :
  length ls + sum_lengths ls < fuel ->
  forall n t,
    placed ls t -> scannable (catcodes t) ls = true ->
    next_token t = None -> remaining t < n ->
    exists t', snd (iter n fuel t) = Finished t' /\
               length ls <= currline t'.
Proof.
  intros Hf. induction n as [|n IH]; intros t Hpl Hs Hn Hr; [lia|].
  destruct (make_token_well_ended ls (length ls) fuel t Hpl Hs
              ltac:(lia) Hf) as (r & t' & Hm & Hpl').
  pose proof (make_token_config fuel t) as Hcfg. rewrite Hm in Hcfg.
  destruct Hcfg as (Hcat & _ & Hslot & _).
  destruct r as [tok|].
  - rewrite (iter_yield n fuel t t' tok Hn Hm). simpl.
    pose proof (make_token_advances fuel t) as Ha. rewrite Hm in Ha.
    destruct Ha as [_ Ha].
    apply IH; [exact Hpl' | rewrite Hcat; exact Hs | congruence | lia].
  - rewrite (iter_done n fuel t t' Hn Hm). simpl.
    exists t'. split; [reflexivity|].
    destruct (make_token_None_exhausted fuel t t' Hm) as (ls' & Hl' & Hc').
    destruct Hpl' as [Hl'' _]. rewrite Hl'' in Hl'. injection Hl' as <-.
    apply lookup_ge_None_1 in Hc'. exact Hc'.
Qed.

(** Pulling ends on well-ended lines.  Let every line end in a character
    that is classified [EndOfLine] or [Comment], is neither a digit nor a
    lower-case hexadecimal digit and is not preceded by an
    [EscapeCharacter]-classified character, and let no character be
    classified [Invalid].  Then, from the start of any line and with an
    empty lookahead slot, the iterator reaches exhaustion without any
    error, behind the last line, within as many rounds as there are
    characters. *)
Theorem X13_pulling_ends_on_well_ended_lines (t : Tokenizer)
    (ls : list string) (n fuel : nat) :
  lines t = LineList ls -> next_token t = None -> currchar t = 0 ->
  scannable (catcodes t) ls = true ->
  sum_lengths ls < n -> length ls + sum_lengths ls < fuel ->
  exists t', snd (iter n fuel t) = Finished t' /\ length ls <= currline t'.
Proof.
  intros Hl Hn Hp Hs Hlen Hf.
  apply (iter_finishes ls fuel Hf n t); auto.
  - apply placed_line_start; assumption.
  - rewrite (remaining_line_start t ls Hl Hp).
    pose proof (sum_lengths_drop ls (currline t)). lia.
Qed.

Lemma X13_witness :
  let t := fresh ("\TeX{} is #1^^41%" ++ str1 LF ++ "b") default_endlinechar in
  exists t', snd (iter 22 24 t) = Finished t' /\ 2 <= currline t'.
Proof.
  intros t.
  apply (X13_pulling_ends_on_well_ended_lines t
           [("\TeX{} is #1^^41%" ++ str1 CR)%string; ("b" ++ str1 CR)%string]
           22 24); try reflexivity; simpl; lia.
Defined.

(** ** The default configuration *)

(** The two entries of the default table that matter for the end of
    pulling: the backslash alone is the escape character, the delete
    character alone is invalid. *)
Lemma default_escape (c : ascii) :
  has_code default_catcodes EscapeCharacter c = Ascii.eqb c "\".
Proof. destruct c as [[] [] [] [] [] [] [] []]; reflexivity. Qed.

Lemma default_invalid (c : ascii) :
  has_code default_catcodes Invalid c = Ascii.eqb c DEL.
Proof. destruct c as [[] [] [] [] [] [] [] []]; reflexivity. Qed.

Lemma string_forall_ext (P Q : ascii -> bool) (s : string) :
  (forall c, P c = Q c) -> string_forall P s = string_forall Q s.
Proof.
  intros H. induction s as [|c s IH]; [reflexivity|].
  simpl. rewrite H, IH. reflexivity.
Qed.

Lemma string_forall_app (P : ascii -> bool) (s1 s2 : string) :
  string_forall P (s1 ++ s2) = string_forall P s1 && string_forall P s2.
Proof.
  induction s1 as [|c s1 IH]; [reflexivity|].
  rewrite app_cons. simpl. rewrite IH, andb_assoc. reflexivity.
Qed.

Lemma string_forall_rstrip (P : ascii -> bool) (s : string) :
  string_forall P s = true -> string_forall P (rstrip s) = true.
Proof.
  induction s as [|c s IH]; [reflexivity|]. simpl.
  intros H. apply andb_true_iff in H. destruct H as [Hc Hs].
  specialize (IH Hs).
  destruct (rstrip s) as [|d r].
  - destruct (isspace c); simpl; [reflexivity | rewrite Hc; reflexivity].
  - simpl in *. rewrite Hc. exact IH.
Qed.

Lemma well_ended_app (m : gmap ascii CategoryCode) (body : string) (e : ascii) :
  well_ended m (body ++ str1 e)
  = line_end_ok m e && negb (ends_with m EscapeCharacter body).
Proof.
  unfold ends_with.
  induction body as [|c body IH].
  - simpl. rewrite andb_true_r. reflexivity.
  - destruct body as [|d body].
    + simpl. apply andb_comm.
    + change (well_ended m (String c (String d body) ++ str1 e))
        with (well_ended m (String c (String d (body ++ str1 e)))).
      change (last_char (String c (String d body)))
        with (last_char (String d body)).
      rewrite <- IH.
      change (String d body ++ str1 e) with (String d (body ++ str1 e)).
      destruct (body ++ str1 e) as [|x r] eqn:Hb; [|reflexivity].
      destruct body; discriminate Hb.
Qed.

Lemma plain_ending_scannable (src : list string) :
  forallb plain_ending src = true ->
  scannable default_catcodes
    (map (fun line => rstrip line ++ str1 CR) src) = true.
Proof.
  unfold scannable. induction src as [|line src IH]; [reflexivity|].
  simpl. intros H. apply andb_true_iff in H. destruct H as [Hl Hs].
  rewrite (IH Hs), andb_true_r.
  unfold plain_ending in Hl. apply andb_true_iff in Hl.
  destruct Hl as [Hdel Hesc].
  apply andb_true_iff. split.
  - rewrite well_ended_app. unfold ends_with.
    destruct (last_char (rstrip line)) as [c|]; [|reflexivity].
    rewrite default_escape, Hesc. reflexivity.
  - unfold no_invalid. rewrite string_forall_app.
    apply andb_true_iff. split; [|reflexivity].
    apply string_forall_rstrip.
    rewrite (string_forall_ext _ (fun c => negb (Ascii.eqb c DEL)));
      [exact Hdel|].
    intros c. rewrite default_invalid. reflexivity.
Qed.

(** In the default configuration pulling ends on every text that holds no
    delete character and no line that ends, once its trailing whitespace
    is removed, in a backslash: the iterator reaches exhaustion without
    any error within as many rounds as the normalised lines have
    characters. *)
Theorem X14_default_configuration_ends (txt : string) (n fuel : nat) :
  let ls := map (fun line => rstrip line ++ str1 CR) (splitlines (strip txt)) in
  forallb plain_ending (splitlines (strip txt)) = true ->
  sum_lengths ls < n -> length ls + sum_lengths ls < fuel ->
  exists toks t',
    tokenize n fuel txt default_endlinechar = (toks, Finished t').
Proof.
  intros ls Hsrc Hn Hf. unfold tokenize. rewrite init_fresh.
  destruct (iter_finishes ls fuel Hf n (fresh txt default_endlinechar))
    as (t' & Ht' & _).
  - apply placed_line_start; [reflexivity | | reflexivity].
    apply plain_ending_scannable, Hsrc.
  - apply plain_ending_scannable, Hsrc.
  - reflexivity.
  - rewrite (remaining_line_start (fresh txt default_endlinechar) ls
               eq_refl eq_refl).
    pose proof (sum_lengths_drop ls 0). simpl in *. lia.
  - destruct (iter n fuel (fresh txt default_endlinechar)) as [toks e].
    simpl in Ht'. subst e. eauto.
Qed.

Lemma X14_witness :
  exists toks t',
    tokenize 9 11 ("a \\b" ++ str1 LF ++ "c") default_endlinechar
    = (toks, Finished t').
Proof.
  apply (X14_default_configuration_ends ("a \\b" ++ str1 LF ++ "c") 9 11);
    [reflexivity | simpl; lia | simpl; lia].
Defined.

(** ** Lines of characters that stand for themselves *)

Lemma joined_char_tokens (m : gmap ascii CategoryCode) (body : string)
    (rest : list (option Token)) :
  joined (char_tokens m body ++ rest)%list = body ++ joined rest.
Proof.
  induction body as [|c body IH]; [reflexivity|].
  simpl. rewrite IH. reflexivity.
Qed.

Lemma iter_char_run (ls : list string) (e : ascii) (fuel : nat) (body : string) :
  forall (pre : string) (t : Tokenizer),
    lines t = LineList ls ->
    ls !! currline t = Some (pre ++ body ++ str1 e) ->
    currchar t = String.length pre -> next_token t = None ->
    state t = MiddleOfLine ->
    string_forall (fun c => verbatim (catcode_of (catcodes t) c)) body = true ->
    catcode t e = EndOfLine ->
    fst (iter (String.length body + 1) (S (S fuel)) t)
    = (char_tokens (catcodes t) body ++ [Some (mkToken " " Space)])%list.
Proof.
  induction body as [|c body IH]; intros pre t Hl Hc Hpos Hn Hs Hb He.
  - rewrite app_nil_l in Hc.
    assert (Hm : make_token (S (S fuel)) t
                 = Done (Some (mkToken " " Space))
                     (set_state NewLine (next_line t))).
    { rewrite (make_token_step fuel t ls _ e Hl Hc)
        by (rewrite Hpos; apply get_app_here).
      rewrite (scan_end_of_line _ e t He), Hs. reflexivity. }
    simpl String.length. simpl Nat.add.
    rewrite (iter_yield 0 (S (S fuel)) t _ _ Hn Hm). reflexivity.
  - simpl in Hb. apply andb_true_iff in Hb. destruct Hb as [Hv Hb].
    rewrite app_cons in Hc.
    assert (Hm : make_token (S (S fuel)) t
                 = Done (Some (mkToken (str1 c) (catcode t c)))
                     (set_state MiddleOfLine
                        (set_currchar (currchar t + 1) t))).
    { rewrite (make_token_step fuel t ls _ c Hl Hc)
        by (rewrite Hpos; apply get_app_here).
      rewrite (scan_verbatim _ c t Hv). reflexivity. }
    simpl String.length.
    change (S (String.length body) + 1) with (S (String.length body + 1)).
    rewrite (iter_yield _ (S (S fuel)) t _ _ Hn Hm).
    cbn [fst char_tokens]. unfold catcode at 1.
    rewrite <- app_comm_cons. f_equal.
    apply (IH (pre ++ str1 c)
             (set_state MiddleOfLine (set_currchar (currchar t + 1) t)));
      try assumption; try reflexivity.
    + cbn [lines currline set_state set_currchar].
      rewrite app_assoc_str. exact Hc.
    + cbn [currchar set_state set_currchar].
      rewrite length_app, Hpos. reflexivity.
Qed.

(** A line made of characters that are returned verbatim, closed by an
    [EndOfLine]-classified character: from the start of the line the
    iterator yields one token for each character, with the character as
    text and its classification as kind, and then the space of the line
    end; joined, the texts of these tokens are the line with its last
    character replaced by a space. *)
Theorem X15_verbatim_line (t : Tokenizer) (ls : list string)
    (c : ascii) (body : string) (e : ascii) (fuel : nat) :
  lines t = LineList ls ->
  ls !! currline t = Some (String c body ++ str1 e) ->
  currchar t = 0 -> next_token t = None ->
  string_forall (fun c => verbatim (catcode_of (catcodes t) c))
    (String c body) = true ->
  catcode t e = EndOfLine ->
  let toks := fst (iter (String.length body + 2) (S (S fuel)) t) in
  toks = (char_tokens (catcodes t) (String c body)
          ++ [Some (mkToken " " Space)])%list /\
  joined toks = String c body ++ " ".
Proof.
  intros Hl Hc Hpos Hn Hb He toks.
  assert (Ht : toks = (char_tokens (catcodes t) (String c body)
                       ++ [Some (mkToken " " Space)])%list).
  { unfold toks. simpl in Hb. apply andb_true_iff in Hb.
    destruct Hb as [Hv Hb]. rewrite app_cons in Hc.
    assert (Hm : make_token (S (S fuel)) t
                 = Done (Some (mkToken (str1 c) (catcode t c)))
                     (set_state MiddleOfLine
                        (set_currchar (currchar t + 1) t))).
    { rewrite (make_token_step fuel t ls _ c Hl Hc)
        by (rewrite Hpos; reflexivity).
      rewrite (scan_verbatim _ c t Hv). reflexivity. }
    replace (String.length body + 2)
      with (S (String.length body + 1)) by lia.
    rewrite (iter_yield _ (S (S fuel)) t _ _ Hn Hm).
    cbn [fst char_tokens]. unfold catcode at 1.
    rewrite <- app_comm_cons. f_equal.
    apply (iter_char_run ls e fuel body (str1 c)
             (set_state MiddleOfLine (set_currchar (currchar t + 1) t)));
      try assumption; try reflexivity.
    cbn [currchar set_state set_currchar]. rewrite Hpos. reflexivity. }
  split; [exact Ht|].
  rewrite Ht, joined_char_tokens. reflexivity.
Qed.

Lemma X15_witness :
  let t := fresh "x{2}" default_endlinechar in
  let toks := fst (iter 5 2 t) in
  toks = [Some (mkToken "x" Letter); Some (mkToken "{" BeginningOfGroup);
          Some (mkToken "2" Other); Some (mkToken "}" EndOfGroup);
          Some (mkToken " " Space)] /\
  joined toks = "x{2} ".
Proof.
  intros t.
  apply (X15_verbatim_line t [("x{2}" ++ str1 CR)%string] "x" "{2}" CR 0);
    reflexivity.
Defined.

(** ** The normalised lines *)

Lemma rstrip_idempotent (s : string) : rstrip (rstrip s) = rstrip s.
Proof.
  induction s as [|c s IH]; [reflexivity|]. simpl.
  destruct (rstrip s) as [|d r] eqn:Hr.
  - destruct (isspace c) eqn:Hc; [reflexivity|].
    simpl. rewrite Hc. reflexivity.
  - change (rstrip (String c (String d r)))
      with (match rstrip (String d r) with
            | EmptyString => if isspace c then EmptyString else str1 c
            | r' => String c r'
            end).
    rewrite IH. reflexivity.
Qed.

Lemma lstrip_no_leading_space (s : string) : no_leading_space (lstrip s).
Proof.
  induction s as [|c s IH]; simpl; [exact I|].
  destruct (isspace c) eqn:Hc; [exact IH | exact Hc].
Qed.

Lemma rstrip_no_leading_space (s : string) :
  no_leading_space s -> no_leading_space (rstrip s).
Proof.
  destruct s as [|c s]; simpl; [auto|]. intros Hc.
  destruct (rstrip s); [rewrite Hc|]; exact Hc.
Qed.

Lemma lstrip_fixed (s : string) : no_leading_space s -> lstrip s = s.
Proof. destruct s as [|c s]; simpl; [auto|]. intros ->. reflexivity. Qed.

Lemma strip_idempotent (s : string) : strip (strip s) = strip s.
Proof.
  unfold strip.
  rewrite (lstrip_fixed (rstrip (lstrip s)))
    by apply rstrip_no_leading_space, lstrip_no_leading_space.
  apply rstrip_idempotent.
Qed.

(** What the first [reset] stores.  The text is stored stripped, and
    stripping it again changes nothing.  There is one normalised line for
    each line of the stripped text.  With an end-of-line character
    configured every normalised line ends in that character, so that none
    is empty, and has no whitespace in front of it; with the end-of-line
    character disabled no normalised line ends in whitespace. *)
Theorem X16_normalised_lines (txt : string) (elc : pyarg) :
  exists ls,
    lines (fresh txt elc) = LineList ls /\
    text (fresh txt elc) = Some (strip txt) /\
    strip (strip txt) = strip txt /\
    length ls = length (splitlines (strip txt)) /\
    forall i line,
      ls !! i = Some line ->
      match endlinechar (fresh txt elc) with
      | Some c =>
          exists body, line = body ++ str1 c /\ rstrip body = body /\
                       1 <= String.length line
      | None => rstrip line = line
      end.
Proof.
  eexists. split; [reflexivity|]. split; [reflexivity|].
  split; [apply strip_idempotent|]. split.
  - unfold lines_method. cbn [text]. apply length_map.
  - intros i line. unfold lines_method. cbn [text endlinechar].
    rewrite list_lookup_fmap.
    destruct (splitlines (strip txt) !! i) as [src|]; simpl;
      [|discriminate].
    intros [= <-].
    destruct (endlinechar_of elc) as [c|].
    + exists (rstrip src). split; [reflexivity|].
      split; [apply rstrip_idempotent|].
      rewrite length_app. simpl. lia.
    + apply rstrip_idempotent.
Qed.

(** ** Runs of spaces *)

Lemma string_forall_impl (P Q : ascii -> bool) (s : string) :
  (forall c, P c = true -> Q c = true) ->
  string_forall P s = true -> string_forall Q s = true.
Proof.
  intros H. induction s as [|c s IH]; [reflexivity|]. simpl.
  intros Hs. apply andb_true_iff in Hs. destruct Hs as [Hc Hs].
  rewrite (H c Hc), (IH Hs). reflexivity.
Qed.

(** A run of [Space]-classified characters in the middle of a line gives
    one token: the pull on its first character returns [( , Space)],
    whatever the character is, with state [SkippingSpaces]; the pull that
    follows gives what the pull that starts behind the whole run gives. *)
Theorem X17_space_run_collapses (t : Tokenizer) (ls : list string)
    (pre spaces rest : string) (sp : ascii) (fuel : nat) :
  lines t = LineList ls ->
  ls !! currline t = Some (pre ++ String sp (spaces ++ rest)) ->
  currchar t = String.length pre -> state t = MiddleOfLine ->
  catcode t sp = Space ->
  string_forall (has_code (catcodes t) Space) spaces = true ->
  let t1 := set_state SkippingSpaces
              (set_currchar (String.length pre + 1) t) in
  let t2 := set_currchar (String.length pre + 1 + String.length spaces) t1 in
  make_token (S (S fuel)) t = Done (Some (mkToken " " Space)) t1 /\
  (make_token fuel t2 <> OutOfFuel ->
   make_token (String.length spaces + fuel) t1 = make_token fuel t2).
Proof.
  intros Hl Hc Hpos Hs Hsp Hrun t1 t2. split.
  - rewrite (make_token_step fuel t ls _ sp Hl Hc)
      by (rewrite Hpos; apply get_app_here).
    unfold scan_char. rewrite Hsp. cbn zeta.
    change (state (set_currchar (currchar t + 1) t)) with (state t).
    rewrite Hs, Hpos. reflexivity.
  - intros Hr.
    assert (Hlen : String.length (pre ++ str1 sp) = String.length pre + 1)
      by (rewrite length_app; reflexivity).
    pose proof (make_token_skips t1 ls (pre ++ str1 sp) spaces rest fuel) as H.
    cbv zeta in H. rewrite Hlen in H. apply H.
    + exact Hl.
    + cbn [currline t1 set_state set_currchar].
      rewrite app_assoc_str. exact Hc.
    + reflexivity.
    + cbn [catcodes state t1 set_state set_currchar].
      apply (string_forall_impl (has_code (catcodes t) Space)); [|exact Hrun].
      intros c Hsc. unfold skipped. rewrite Hsc. apply orb_true_r.
    + exact Hr.
Qed.

Lemma X17_witness :
  let t := set_state MiddleOfLine
             (set_currchar 1
                (fresh ("a" ++ str1 TAB ++ " b") default_endlinechar)) in
  let t1 := set_state SkippingSpaces (set_currchar 2 t) in
  make_token 2 t = Done (Some (mkToken " " Space)) t1 /\
  make_token (1 + 2) t1
  = Done (Some (mkToken "b" Letter))
      (set_state MiddleOfLine (set_currchar 4 t)).
Proof.
  intros t t1.
  destruct (X17_space_run_collapses t
              [("a" ++ str1 TAB ++ " b" ++ str1 CR)%string]
              "a" " " ("b" ++ str1 CR) TAB 0) as [H1 _];
    try reflexivity.
  destruct (X17_space_run_collapses t
              [("a" ++ str1 TAB ++ " b" ++ str1 CR)%string]
              "a" " " ("b" ++ str1 CR) TAB 2) as [_ H2];
    try reflexivity.
  split; [exact H1|].
  refine (eq_trans (H2 _) _); [discriminate | reflexivity].
Defined.
